(** * Patient-profile generation: a shallow embedding of
      [generating_patient_profiles.py] and the properties of its sampler
      and profile assembler.

    Conventions of the embedding.

    - A pandas [DataFrame] is the list of its rows, in file order; boolean
      indexing is [filter].  A [Series] or a one-dimensional numpy array is
      the list of its values.
    - Python [float]s and numpy doubles are idealised as exact rationals
      ([Q]): rounding error and the sign of zero are not represented.  A
      quotient by [0.0] inside an array (which numpy turns into [inf] or
      [nan] instead of raising) is the entry [None].  Neither is the range
      of a double: Python refuses with [OverflowError] to turn an int
      beyond it into a float, and [math.fsum] a sum that leaves it.
      Statements that would depend on it bound the target count
      ([exact_int]) and the weights ([bounded_weights]).
    - Python exceptions are identified by the name of their class.
    - The module-level state is the global frame [df] and numpy's global
      generator.  The generator is an oracle: two infinite tapes (standard
      normal deviates and selection draws) with a read position each, so
      every outcome the generator can produce is some tape. *)

From Stdlib Require Import String List ZArith QArith Qround Qabs Bool Lia Arith.
Import ListNotations.

Local Open Scope string_scope.
Local Open Scope list_scope.

(* ------------------------------------------------------------------ *)
(** ** Python values and exceptions *)

Module Py.

Inductive result (A : Type) : Type :=
| Ok (a : A)
| Raise (cls : string).
Arguments Ok {A} a.
Arguments Raise {A} cls.

Definition ZeroDivisionError : string := "ZeroDivisionError".
Definition ValueError : string := "ValueError".
Definition KeyError : string := "KeyError".

(** [math.fsum]: the exact sum of the values. *)
Definition fsum (xs : list Q) : Q := fold_right Qplus 0%Q xs.

(** [x / y] on two Python floats. *)
Definition truediv (x y : Q) : result Q :=
  if Qeq_bool y 0 then Raise ZeroDivisionError else Ok (x / y)%Q.

(** [round(x)] with one argument: nearest integer, ties to even. *)
Definition round (x : Q) : Z :=
  let f := Qfloor x in
  match (x - inject_Z f ?= 1 # 2)%Q with
  | Lt => f
  | Gt => (f + 1)%Z
  | Eq => if Z.even f then f else (f + 1)%Z
  end.

(** The two kinds of object met by the comparison of line 157: a [bool],
    and the bound method [arr.any] of a boolean array [arr]. *)
Inductive object : Type :=
| Bool (b : bool)
| BoundMethod (self : list bool) (name : string).

(** [obj == b] for a bool [b].  A bound method does not compare equal to
    a bool: both [__eq__] give [NotImplemented] and the identity
    fallback yields [False]. *)
Definition eq_bool (obj : object) (b : bool) : bool :=
  match obj with
  | Bool a => Bool.eqb a b
  | BoundMethod _ _ => false
  end.

End Py.
Import Py.

(* ------------------------------------------------------------------ *)
(** ** pandas frames *)

(** A cell of the frame: a string, a number, or a missing value ([NaN],
    equal to nothing, itself included). *)
Inductive cell : Type :=
| Str (s : string)
| Num (q : Q)
| NaN.

Definition cell_eqb (x y : cell) : bool :=
  match x, y with
  | Str a, Str b => (a =? b)%string
  | Num a, Num b => Qeq_bool a b
  | _, _ => false
  end.

(** One row of [patient_perspective_data.csv], with the columns the
    program reads. *)
Record Row : Type := mkRow {
  disorder : string;
  patient_name : string;
  probability : Q;
  discovery_group : string;
  prerequisite_needed : string;
  prerequisite_type : cell;
  HPO_category : cell
}.

Definition DataFrame : Type := list Row.

(** [frame[name]]: the accessor of the column, if the frame has it. *)
Definition column (name : string) : option (Row -> cell) :=
  if name =? "disorder" then Some (fun r => Str (disorder r))
  else if name =? "patient_name" then Some (fun r => Str (patient_name r))
  else if name =? "probability" then Some (fun r => Num (probability r))
  else if name =? "discovery_group" then Some (fun r => Str (discovery_group r))
  else if name =? "prerequisite_needed"
       then Some (fun r => Str (prerequisite_needed r))
  else if name =? "prerequisite_type" then Some prerequisite_type
  else if name =? "HPO_category" then Some HPO_category
  else None.

(** [frame[frame[column_name] == column_value]]. *)
Definition select_eq (frame : DataFrame) (column_name : string)
    (column_value : cell) : result DataFrame :=
  match column column_name with
  | None => Raise KeyError
  | Some get => Ok (filter (fun r => cell_eqb (get r) column_value) frame)
  end.

(** [frame[frame.disorder == name].reset_index(drop=True)]. *)
Definition of_disorder (frame : DataFrame) (name : string) : DataFrame :=
  filter (fun r => disorder r =? name) frame.

(* ------------------------------------------------------------------ *)
(** ** Module state and the monad of the program *)

Record RandomState : Type := mkRandomState {
  gauss_tape : nat -> Q;
  pick_tape : nat -> nat;
  gauss_pos : nat;
  pick_pos : nat
}.

Record Globals : Type := mkGlobals {
  df : DataFrame;
  np_random : RandomState
}.

Definition M (A : Type) : Type := Globals -> result A * Globals.

Definition ret {A} (a : A) : M A := fun g => (Ok a, g).

Definition raise {A} (cls : string) : M A := fun g => (Raise cls, g).

Definition bind {A B} (m : M A) (k : A -> M B) : M B :=
  fun g =>
    match m g with
    | (Ok a, g') => k a g'
    | (Raise cls, g') => (Raise cls, g')
    end.

Definition lift {A} (r : result A) : M A := fun g => (r, g).

Notation "x <- m ;; k" := (bind m (fun x => k))
  (at level 61, m at next level, right associativity).

(** Reading the module-level [df]. *)
Definition global_df : M DataFrame := fun g => (Ok (df g), g).

Definition next_gauss : M Q :=
  fun g =>
    let rs := np_random g in
    (Ok (gauss_tape rs (gauss_pos rs)),
     mkGlobals (df g)
       (mkRandomState (gauss_tape rs) (pick_tape rs)
          (S (gauss_pos rs)) (pick_pos rs))).

Definition next_pick : M nat :=
  fun g =>
    let rs := np_random g in
    (Ok (pick_tape rs (pick_pos rs)),
     mkGlobals (df g)
       (mkRandomState (gauss_tape rs) (pick_tape rs)
          (gauss_pos rs) (S (pick_pos rs)))).

(* ------------------------------------------------------------------ *)
(** ** numpy *)

Module Np.

(** [np.random.normal(loc, scale)] on scalars: [loc + scale * z] for the
    next standard deviate [z]; a negative [scale] is refused before any
    draw. *)
Definition random_normal (loc scale : Q) : M Q :=
  if Qle_bool 0 scale
  then z <- next_gauss ;; ret (loc + scale * z)%Q
  else raise ValueError.

(** An entry of [series / d]. *)
Definition divide (x d : Q) : option Q :=
  if Qeq_bool d 0 then None else Some (x / d)%Q.

Definition finite (p : list (option Q)) : option (list Q) :=
  fold_right
    (fun x acc =>
       match x, acc with
       | Some q, Some qs => Some (q :: qs)
       | _, _ => None
       end)
    (Some []) p.

(** Tolerance of the check that [p] sums to one: [sqrt(eps)] of a
    double, that is [2^-26]. *)
Definition atol : Q := 1 # 67108864.

Fixpoint remove_at {A} (i : nat) (l : list A) : list A :=
  match l, i with
  | [], _ => []
  | _ :: t, O => t
  | h :: t, S j => h :: remove_at j t
  end.

(** The positions of the entries of [p] that can be selected. *)
Definition support (p : list Q) : list nat :=
  filter (fun i => negb (Qle_bool (nth i p 0%Q) 0)) (seq 0 (length p)).

(** [n] successive draws without replacement from [pool]: each draw
    removes the drawn position. *)
Fixpoint draw (pool : list nat) (n : nat) : M (list nat) :=
  match n with
  | O => ret []
  | S n' =>
      k <- next_pick ;;
      let i := (k mod length pool)%nat in
      rest <- draw (remove_at i pool) n' ;;
      ret (nth i pool O :: rest)
  end.

(** [np.random.choice(a, size=size, replace=False, p=p)] for a
    one-dimensional [a] and an integer [size]: the argument checks, in
    the order numpy makes them, then [size] distinct positions of
    positive probability. *)
Definition random_choice (a : list string) (size : Z)
    (p : list (option Q)) : M (list string) :=
  let pop_size := length a in
  if ((pop_size =? 0)%nat && negb (size =? 0)%Z)%bool then raise ValueError
  else if negb (length p =? pop_size)%nat then raise ValueError
  else
    match finite p with
    | None => raise ValueError
    | Some w =>
        if existsb (fun x => negb (Qle_bool 0 x)) w then raise ValueError
        else if negb (Qle_bool (Qabs (fsum w - 1)) atol) then raise ValueError
        else if (Z.of_nat pop_size <? size)%Z then raise ValueError
        else if (size <? 0)%Z then raise ValueError
        else if (Z.of_nat (length (support w)) <? size)%Z
             then raise ValueError
        else
          idx <- draw (support w) (Z.to_nat size) ;;
          ret (map (fun i => nth i a "") idx)
    end.

(** [np.isin(element, test)] for a scalar [test]. *)
Definition isin (element : list string) (test : string) : list bool :=
  map (fun e => e =? test) element.

End Np.

(* ------------------------------------------------------------------ *)
(** ** The program *)

(** Lines 43-47: the frame read from the CSV file, without the phenotypes
    that do not occur and without the redundant ones. *)
Definition load_df (csv : DataFrame) : DataFrame :=
  let df := csv in
  let df := filter (fun r => negb (Qeq_bool (probability r) 0)) df in
  let df := filter (fun r => negb (discovery_group r =? "R")) df in
  df.

(** Lines 63-100. *)
Definition phenotype_choice (df : DataFrame)
    (disorder_name column_name : string) (column_value : cell)
    (total_phenotypes : Z) : M (list string) :=
  let current_disorder := of_disorder df disorder_name in
  current_discovery_grp <-
    lift (select_eq current_disorder column_name column_value) ;;
  let a := map patient_name current_discovery_grp in
  let p := map probability current_discovery_grp in
  subset_weight <-
    lift (truediv (fsum p) (fsum (map probability current_disorder))) ;;
  let size := (inject_Z total_phenotypes * subset_weight)%Q in
  noised <- Np.random_normal size (size * (15 # 100))%Q ;;
  let size := round noised in
  if (length a =? 0)%nat then ret []
  else
    let size :=
      if (Z.of_nat (length a) <? size)%Z
      then round (inject_Z (Z.of_nat (length a)) * (8 # 10))%Q
      else size in
    Np.random_choice a size (map (fun x => Np.divide x (fsum p)) p).

(** Lines 155-159, one iteration: the guard compares the bound method
    [np.isin(...).any] itself (it is not called) with [False]. *)
Definition merge_prereq (sym dev sampled_prereq_list : list string)
    (sampled_prereq : string) : list string :=
  if eq_bool (BoundMethod (Np.isin (sym ++ dev) sampled_prereq) "any") false
  then sampled_prereq_list ++ [sampled_prereq]
  else sampled_prereq_list.

(** Line 146: the records that do not themselves need a prerequisite. *)
Definition prereq_df (d : DataFrame) : DataFrame :=
  filter (fun r => prerequisite_needed r =? "N") d.

(** A [for] loop whose body updates an accumulator. *)
Fixpoint for_each {A S : Type} (xs : list A) (body : S -> A -> M S) (s : S)
    : M S :=
  match xs with
  | [] => ret s
  | x :: xs' => s' <- body s x ;; for_each xs' body s'
  end.

(** Lines 146-159: the body of the loop over the findings that need a
    prerequisite. *)
Definition prereq_step (disorder : string) (total_phenotypes : Z)
    (sym dev sampled_prereq_list : list string) (finding : cell)
    : M (list string) :=
  d <- global_df ;;
  let prereq_df := prereq_df d in
  prereq_finding <-
    phenotype_choice prereq_df disorder "HPO_category" finding
      total_phenotypes ;;
  ret (fold_left (merge_prereq sym dev) prereq_finding sampled_prereq_list).

(** Lines 115-171.  [patient_info] is the flattened content of the frame the
    caller passes. *)
Definition generate_single_patient (disorder : string) (total_phenotypes : Z)
    (patient_info : list string) : M (list string) :=
  d <- global_df ;;
  fin <- phenotype_choice d disorder "discovery_group" (Str "F")
           total_phenotypes ;;
  d <- global_df ;;
  sym <- phenotype_choice d disorder "discovery_group" (Str "S")
           total_phenotypes ;;
  d <- global_df ;;
  dev <- phenotype_choice d disorder "discovery_group" (Str "D")
           total_phenotypes ;;
  d <- global_df ;;
  let current_disorder := of_disorder d disorder in
  let fin_array :=
    filter (fun r => existsb (String.eqb (patient_name r)) fin)
      current_disorder in
  let specific_fin :=
    filter (fun r => prerequisite_needed r =? "Y") fin_array in
  let specific_fin := map prerequisite_type specific_fin in
  let sampled_prereq_list : list string := [] in
  sym <-
    (if negb (length specific_fin =? 0)%nat
     then
       sampled_prereq_list <-
         for_each specific_fin
           (prereq_step disorder total_phenotypes sym dev)
           sampled_prereq_list ;;
       if negb (length sym =? 0)%nat
       then ret (sym ++ sampled_prereq_list)
       else ret sampled_prereq_list
     else ret sym) ;;
  let phenotypes := dev ++ sym ++ fin in
  let phenotypes := patient_info ++ phenotypes in
  ret phenotypes.

(* ------------------------------------------------------------------ *)
(** ** Vocabulary for the statements

    The stages of [phenotype_choice], named so that statements can speak of
    the partition, of the size before and after the noise, and of the size
    and weights handed to the sampler.  [phenotype_choice_stages] below
    proves that the function is their composition. *)

(** Lines 70-75: the records of the disorder whose column has the value. *)
Definition partition (d : DataFrame) (disorder_name column_name : string)
    (column_value : cell) : result DataFrame :=
  select_eq (of_disorder d disorder_name) column_name column_value.

(** Line 82, the denominator: the probability sum of the records of the
    disorder in the frame that was passed. *)
Definition disorder_weight (d : DataFrame) (disorder_name : string) : Q :=
  fsum (map probability (of_disorder d disorder_name)).

(** Lines 82-83: the size before the noise. *)
Definition size_basis (grp : DataFrame) (d : DataFrame)
    (disorder_name : string) (total_phenotypes : Z) : result Q :=
  match truediv (fsum (map probability grp)) (disorder_weight d disorder_name)
  with
  | Ok subset_weight => Ok (inject_Z total_phenotypes * subset_weight)%Q
  | Raise cls => Raise cls
  end.

(** Lines 82-87: the noise-perturbed, rounded size. *)
Definition noised_size (grp : DataFrame) (d : DataFrame)
    (disorder_name : string) (total_phenotypes : Z) : M Z :=
  size <- lift (size_basis grp d disorder_name total_phenotypes) ;;
  noised <- Np.random_normal size (size * (15 # 100))%Q ;;
  ret (round noised).

(** Lines 93-94: the size handed to the sampler for [n] records. *)
Definition sampling_size (n : nat) (size : Z) : Z :=
  if (Z.of_nat n <? size)%Z
  then round (inject_Z (Z.of_nat n) * (8 # 10))%Q
  else size.

(** Line 99: [p / fsum(p)]. *)
Definition selection_weights (p : list Q) : list (option Q) :=
  map (fun x => Np.divide x (fsum p)) p.

(** Lines 90-99: the sampling once the size is known. *)
Definition sample (grp : DataFrame) (size : Z) : M (list string) :=
  match grp with
  | [] => ret []
  | _ :: _ =>
      Np.random_choice (map patient_name grp)
        (sampling_size (length grp) size)
        (selection_weights (map probability grp))
  end.

(** The data model of a catalog: every weight is positive. *)
Definition positive_weights (d : DataFrame) : Prop :=
  Forall (fun r => (0 < probability r)%Q) d.

(** The names of the records of a disorder in one discovery group. *)
Definition names_of (d : DataFrame) (disorder_name group : string)
    : list string :=
  map patient_name
    (filter (fun r => discovery_group r =? group)
       (of_disorder d disorder_name)).

(** The module states that follow a start state: any number of sampling and
    assembly calls, with any arguments, whether they return or raise. *)
Inductive reachable (g0 : Globals) : Globals -> Prop :=
| reach_start : reachable g0 g0
| reach_sample g d dn cn cv total :
    reachable g0 g ->
    reachable g0 (snd (phenotype_choice d dn cn cv total g))
| reach_assemble g dn total info :
    reachable g0 g ->
    reachable g0 (snd (generate_single_patient dn total info g)).

(** A computation that leaves the global frame as it found it. *)
Definition keeps_df {A} (m : M A) : Prop :=
  forall g, df (snd (m g)) = df g.

(** The invariant of the catalog. *)
Definition occurs_and_is_not_redundant (r : Row) : Prop :=
  ~ (probability r == 0)%Q /\ discovery_group r <> "R".

(* ------------------------------------------------------------------ *)
(** ** A small catalog and two generators, used to run the program *)

Module Example.

Definition row (name : string) (p : Q) (group needs : string)
    (prereq hpo : cell) : Row :=
  mkRow "D" name p group needs prereq hpo.

(** One disorder: two developmental traits, two symptoms (the second in
    the category ["X"]), a finding that needs a prerequisite of category
    ["X"], a phenotype that does not occur and a redundant one. *)
Definition csv : DataFrame :=
  [ row "d1" (1 # 2) "D" "N" NaN (Str "Z");
    row "d2" (1 # 2) "D" "N" NaN (Str "Z");
    row "s1" 1 "S" "N" NaN (Str "Y");
    row "s2" 1 "S" "N" NaN (Str "X");
    row "f1" 1 "F" "Y" (Str "X") (Str "W");
    row "f0" 0 "F" "N" NaN (Str "W");
    row "r1" 1 "R" "N" NaN (Str "W") ].

(** Deviates [0, -10/3, 0, 0, ...]; every selection draw is [0]. *)
Definition rs : RandomState :=
  mkRandomState (fun n => if (n =? 1)%nat then (-10 # 3)%Q else 0%Q)
    (fun _ => O) 0 0.

(** Every deviate is [-7]: seven standard deviations below the mean. *)
Definition rs_low : RandomState :=
  mkRandomState (fun _ => (-7 # 1)%Q) (fun _ => O) 0 0.

Definition g : Globals := mkGlobals (load_df csv) rs.

Definition g_low : Globals := mkGlobals (load_df csv) rs_low.

(** The state of [g] when the three category draws of
    [generate_single_patient "D" 4] are done. *)
Definition g_drawn : Globals :=
  let g := snd (phenotype_choice (df g) "D" "discovery_group" (Str "F") 4 g) in
  let g := snd (phenotype_choice (df g) "D" "discovery_group" (Str "S") 4 g) in
  snd (phenotype_choice (df g) "D" "discovery_group" (Str "D") 4 g).

Definition symptoms : DataFrame :=
  [ row "s1" 1 "S" "N" NaN (Str "Y"); row "s2" 1 "S" "N" NaN (Str "X") ].

End Example.

(* ------------------------------------------------------------------ *)
(** ** The cohort generators

    The two drivers build a pandas frame one column at a time and
    transpose it at the end.  A frame under construction is the list of
    its columns; [concat(axis=1)] aligns the columns on their positions
    and fills what is missing with [NaN].  The transposed frame is the
    same nested list, read as the list of its rows. *)

Definition IndexError : string := "IndexError".

(** [seq[i]] for a list or a tuple and an index that is not negative. *)
Definition getitem {A} (xs : list A) (i : nat) : result A :=
  match nth_error xs i with
  | Some x => Ok x
  | None => Raise IndexError
  end.

(** [itertools.permutations(pool)]: the orderings of the pool, in the
    lexicographic order of the positions. *)
Fixpoint permutations_of {A} (n : nat) (pool : list A) : list (list A) :=
  match n with
  | O => [[]]
  | S n' =>
      flat_map
        (fun i =>
           match nth_error pool i with
           | Some x => map (cons x) (permutations_of n' (Np.remove_at i pool))
           | None => []
           end)
        (seq 0 (length pool))
  end.

Definition permutations {A} (pool : list A) : list (list A) :=
  permutations_of (length pool) pool.

(** [np.array_split(ary, sections)] on a one-dimensional array: the first
    [len % sections] parts have one element more than the others. *)
Definition section_sizes (total sections : nat) : list nat :=
  let each := (total / sections)%nat in
  let extras := (total mod sections)%nat in
  repeat (S each) extras ++ repeat each (sections - extras).

Fixpoint split_sizes {A} (sizes : list nat) (ary : list A) : list (list A) :=
  match sizes with
  | [] => []
  | n :: rest => firstn n ary :: split_sizes rest (skipn n ary)
  end.

Definition array_split {A} (ary : list A) (sections : nat) : list (list A) :=
  split_sizes (section_sizes (length ary) sections) ary.

(** [", ".join(names)]. *)
Definition join (names : list string) : string := String.concat ", " names.

(** Parts of a frame: its columns, each a list of cells. *)
Definition Columns : Type := list (list cell).

Definition height (frame : Columns) : nat :=
  fold_right Nat.max O (map (@length cell) frame).

Definition pad (h : nat) (col : list cell) : list cell :=
  col ++ repeat NaN (h - length col).

(** [pd.concat([frame, pd.DataFrame(col)], axis=1)]. *)
Definition concat_axis1 (frame : Columns) (col : list cell) : Columns :=
  let h := Nat.max (height frame) (length col) in
  map (pad h) frame ++ [pad h col].

Definition is_nan (c : cell) : bool :=
  match c with
  | NaN => true
  | _ => false
  end.

(** [frame.dropna(how='all')]: the rows that are not all missing. *)
Definition dropna_all (rows : list (list cell)) : list (list cell) :=
  filter (fun row => negb (forallb is_nan row)) rows.

(** [frame.columns = labels] on the transposed frame: the number of labels
    must be the number of its columns. *)
Definition set_columns (frame : Columns) (labels : list string)
    : result (list (list cell)) :=
  if (height frame =? length labels)%nat then Ok frame else Raise ValueError.

Definition int_cell (n : nat) : cell := Num (inject_Z (Z.of_nat n)).

Definition personas_columns : list string :=
  [ "participant_ID"; "game_ID"; "disorder"; "website_choice";
    "round_1"; "round_2"; "round_3" ].

(** Lines 193-210: one game of participant [i]; [n] numbers the games of
    the participant. *)
Definition timeseries_game (total_phenotypes : Z) (i : nat)
    (website_choices : list Z) (st : nat * Columns) (disorder : string)
    : M (nat * Columns) :=
  let n := fst st in
  let games := snd st in
  let patient_info : list string := [] in
  single_game <-
    generate_single_patient disorder total_phenotypes patient_info ;;
  match array_split single_game 3 with
  | [round1; round2; round3] =>
      choice <- lift (getitem website_choices n) ;;
      let patient_info :=
        [ int_cell i; int_cell n; Str disorder; Num (inject_Z choice) ] in
      let n := S n in
      let round1 := join round1 in
      let round2 := join round2 in
      let round3 := join round3 in
      let rounds := [ Str round1; Str round2; Str round3 ] in
      let game := patient_info ++ rounds in
      ret (n, concat_axis1 games game)
  | _ => raise ValueError
  end.

(** Lines 186-210: the games of participant [i]. *)
Definition timeseries_participant (disorder_list : list string)
    (total_phenotypes : Z) (games : Columns) (i : nat) : M Columns :=
  let j := ((i + 1) mod 5)%nat in
  website_choices <- lift (getitem (permutations [0; 1; 2]%Z) j) ;;
  st <-
    for_each disorder_list
      (timeseries_game total_phenotypes i website_choices) (O, games) ;;
  ret (snd st).

(** Lines 176-215. *)
Definition generate_timeseries_personas (disorder_list : list string)
    (total_phenotypes : Z) (total_participants : Z) : M (list (list cell)) :=
  noised <-
    Np.random_normal (inject_Z total_phenotypes)
      (inject_Z total_phenotypes * (1 # 10))%Q ;;
  let total_phenotypes := round noised in
  let games : Columns := [] in
  games <-
    for_each (seq 0 (Z.to_nat total_participants))
      (timeseries_participant disorder_list total_phenotypes) games ;;
  lift (set_columns games personas_columns).

(** *** The static user base

    [generate_users] also reads Python's own generator, through
    [random.randint] and [names.get_first_name]; both are oracles beside
    the module state. *)

Record PyRandom : Type := mkPyRandom {
  randint_tape : nat -> nat;
  name_tape : nat -> string;
  randint_pos : nat;
  name_pos : nat
}.

Record World : Type := mkWorld {
  module_state : Globals;
  py_random : PyRandom
}.

Definition W (A : Type) : Type := World -> result A * World.

Definition retW {A} (a : A) : W A := fun w => (Ok a, w).

Definition bindW {A B} (m : W A) (k : A -> W B) : W B :=
  fun w =>
    match m w with
    | (Ok a, w') => k a w'
    | (Raise cls, w') => (Raise cls, w')
    end.

Notation "x <~ m ;; k" := (bindW m (fun x => k))
  (at level 61, m at next level, right associativity).

(** A computation on the module state, run in the larger state. *)
Definition in_module {A} (m : M A) : W A :=
  fun w =>
    let (r, g) := m (module_state w) in
    (r, mkWorld g (py_random w)).

(** [random.randint(a, b)] for [a <= b]. *)
Definition randint (a b : Z) : W Z :=
  fun w =>
    let r := py_random w in
    let span := Z.to_nat (b - a + 1) in
    ((Ok (a + Z.of_nat (randint_tape r (randint_pos r) mod span)))%Z,
     mkWorld (module_state w)
       (mkPyRandom (randint_tape r) (name_tape r)
          (S (randint_pos r)) (name_pos r))).

(** [names.get_first_name()]. *)
Definition get_first_name : W string :=
  fun w =>
    let r := py_random w in
    (Ok (name_tape r (name_pos r)),
     mkWorld (module_state w)
       (mkPyRandom (randint_tape r) (name_tape r)
          (randint_pos r) (S (name_pos r)))).

Fixpoint for_eachW {A S : Type} (xs : list A) (body : S -> A -> W S) (s : S)
    : W S :=
  match xs with
  | [] => retW s
  | x :: xs' => s' <~ body s x ;; for_eachW xs' body s'
  end.

(** Lines 246-252: the profile of a user at an earlier stage of
    diagnosis loses its last entries. *)
Definition earlier_stage (k : Z) (user : list string) : list string :=
  let phenotypes := inject_Z (Z.of_nat (length user)) in
  if (7 <? k)%Z
  then firstn (Z.to_nat (round (phenotypes * (75 # 100))%Q)) user
  else if (4 <? k)%Z
  then firstn (Z.to_nat (round (phenotypes * (85 # 100))%Q)) user
  else user.

(** Lines 230-255: one user of a disorder. *)
Definition generate_user (total_phenotypes : Z) (users : Columns)
    (disorder : string) : W Columns :=
  k <~ randint 1 10 ;;
  name <~ get_first_name ;;
  let patient_info :=
    if (2 <? k)%Z then [name; "undiagnosed"] else [name; disorder] in
  user <~
    in_module
      (generate_single_patient disorder total_phenotypes patient_info) ;;
  let user := earlier_stage k user in
  let user := map Str user in
  retW (concat_axis1 users user).

(** Lines 221-260. *)
Definition generate_users (disorder_list : list string) (total_phenotypes : Z)
    (users_per_disorder : Z) : W (list (list cell)) :=
  let users : Columns := [] in
  users <~
    for_eachW (seq 0 (Z.to_nat users_per_disorder))
      (fun users _ =>
         for_eachW disorder_list (generate_user total_phenotypes) users)
      users ;;
  let users := dropna_all users in
  retW users.

(** The two errors that arithmetic and numpy raise in this program. *)
Definition numeric_error (cls : string) : Prop :=
  cls = ZeroDivisionError \/ cls = ValueError.

(** Line 188 for participant [i], and the four leading cells of the game
    [n] of participant [i] on the disorder [d]. *)
Definition website_choices_of (i : nat) : list Z :=
  nth ((i + 1) mod 5)%nat (permutations [0; 1; 2]%Z) [].

Definition game_key (i n : nat) (d : string) : list cell :=
  [ int_cell i; int_cell n; Str d;
    Num (inject_Z (nth n (website_choices_of i) 0%Z)) ].

Definition expected_keys (disorder_list : list string) (participants : nat)
    : list (list cell) :=
  flat_map
    (fun i =>
       map (fun nd => game_key i (fst nd) (snd nd))
         (combine (seq 0 (length disorder_list)) disorder_list))
    (seq 0 participants).

(** A column of the games frame: the seven cells of one game. *)
Definition seven (c : list cell) : Prop := length c = 7%nat.

(** A column of the users frame: a name, then "undiagnosed" or one of the
    disorders, then the rest of the profile and its padding. *)
Definition identified (disorder_list : list string) (c : list cell) : Prop :=
  exists name status rest,
    c = Str name :: Str status :: rest /\
    (status = "undiagnosed" \/ In status disorder_list).

(** The users frame while it is built: identified columns of one
    height. *)
Definition users_frame (dl : list string) (frame : Columns) : Prop :=
  Forall (identified dl) frame /\
  exists h, Forall (fun c => length c = h) frame.

(** The range in which the rationals stand for the doubles of the code: an
    int that a double holds exactly (at most [2^53] in absolute value), and
    weights that are at most 1 in absolute value, so that no conversion and
    no sum of lines 82-87 and 180 leaves the range of a double. *)
Definition exact_int (n : Z) : Prop :=
  (Z.abs n <= 9007199254740992)%Z.

Definition bounded_weights (d : DataFrame) : Prop :=
  Forall (fun r => (Qabs (probability r) <= 1)%Q) d.

(** *** Inputs for runs of the generators *)

Module Cohort.

(** Every deviate and every selection draw is zero. *)
Definition rs : RandomState :=
  mkRandomState (fun _ => 0%Q) (fun _ => O) 0 0.

Definition g : Globals := mkGlobals (load_df Example.csv) rs.

(** A disorder whose only record is a finding that needs a
    prerequisite. *)
Definition flagged_only : DataFrame :=
  [ mkRow "E" "f9" 1 "F" "Y" (Str "X") (Str "W") ].

Definition g_flagged : Globals := mkGlobals flagged_only rs.

(** Draws [k = 1, 5, 9, ...] and the names "Ann", "Bob", "Bob", ... *)
Definition py : PyRandom :=
  mkPyRandom (fun n => (n * 4)%nat)
    (fun n => if (n =? 0)%nat then "Ann" else "Bob") 0 0.

Definition w : World := mkWorld g py.

(** The two games of one participant on the disorder "D", as
    [generate_timeseries_personas ["D"; "D"] 4 1] returns them from [g], and
    the state it leaves. *)
Definition two_games : list (list cell) * Globals :=
  ( [ [ Num 0; Num 0; Str "D"; Num 0; Str "d1, s1"; Str "s2"; Str "f1" ];
      [ Num 0; Num 1; Str "D"; Num 2; Str "d1, s1"; Str "s2"; Str "f1" ] ],
    mkGlobals (load_df Example.csv)
      (mkRandomState (fun _ => 0%Q) (fun _ => O) 9 10) ).

(** The three users [generate_users ["D"] 4 3] returns from [w], and the
    state it leaves. *)
Definition three_users : list (list cell) * World :=
  ( [ [ Str "Ann"; Str "D"; Str "d1"; Str "s1"; Str "s2"; Str "f1" ];
      [ Str "Bob"; Str "undiagnosed"; Str "d1"; Str "s1"; Str "s2"; NaN ];
      [ Str "Bob"; Str "undiagnosed"; Str "d1"; Str "s1"; NaN; NaN ] ],
    mkWorld
      (mkGlobals (load_df Example.csv)
         (mkRandomState (fun _ => 0%Q) (fun _ => O) 12 15))
      (mkPyRandom (fun n => (n * 4)%nat)
         (fun n => if (n =? 0)%nat then "Ann" else "Bob") 3 3) ).

(** One name in two discovery groups of a disorder, both records in the
    category "X" and neither needing a prerequisite. *)
Definition same_name : DataFrame :=
  [ mkRow "D" "x" 1 "S" "N" NaN (Str "X");
    mkRow "D" "x" 1 "D" "N" NaN (Str "X") ].

Definition g_same_name : Globals := mkGlobals (load_df same_name) rs.

End Cohort.

(* ------------------------------------------------------------------ *)
(** ** The monad: running a computation *)

Section Running.

Context {A B : Type}.

Lemma bind_ok (m : M A) (k : A -> M B) g a g' :
  m g = (Ok a, g') -> bind m k g = k a g'.
Proof. intros E. unfold bind. now rewrite E. Qed.

Lemma bind_raise (m : M A) (k : A -> M B) g cls g' :
  m g = (Raise cls, g') -> bind m k g = (Raise cls, g').
Proof. intros E. unfold bind. now rewrite E. Qed.

Lemma bind_inv (m : M A) (k : A -> M B) g b g' :
  bind m k g = (Ok b, g') ->
  exists a g1, m g = (Ok a, g1) /\ k a g1 = (Ok b, g').
Proof.
  unfold bind. destruct (m g) as [[a | cls] g1]; intros E.
  - now exists a, g1.
  - discriminate.
Qed.

End Running.

(** ** The frame: no operation writes the global [df] *)

Create HintDb frame.

Lemma keeps_ret {A} (a : A) : keeps_df (ret a).
Proof. now intros g. Qed.

Lemma keeps_raise {A} cls : keeps_df (@raise A cls).
Proof. now intros g. Qed.

Lemma keeps_lift {A} (r : result A) : keeps_df (lift r).
Proof. now intros g. Qed.

Lemma keeps_global_df : keeps_df global_df.
Proof. now intros g. Qed.

Lemma keeps_next_gauss : keeps_df next_gauss.
Proof. now intros g. Qed.

Lemma keeps_next_pick : keeps_df next_pick.
Proof. now intros g. Qed.

Lemma keeps_bind {A B} (m : M A) (k : A -> M B) :
  keeps_df m -> (forall a, keeps_df (k a)) -> keeps_df (bind m k).
Proof.
  intros Hm Hk g. unfold bind. specialize (Hm g).
  destruct (m g) as [[a | cls] g1]; simpl in *.
  - now rewrite Hk.
  - exact Hm.
Qed.

Lemma keeps_if {A} (b : bool) (m1 m2 : M A) :
  keeps_df m1 -> keeps_df m2 -> keeps_df (if b then m1 else m2).
Proof. now destruct b. Qed.

#[local] Hint Resolve keeps_ret keeps_raise keeps_lift keeps_global_df
  keeps_next_gauss keeps_next_pick keeps_bind keeps_if : frame.

Lemma keeps_random_normal loc scale : keeps_df (Np.random_normal loc scale).
Proof. unfold Np.random_normal. auto with frame. Qed.

Lemma keeps_draw n : forall pool, keeps_df (Np.draw pool n).
Proof.
  induction n as [| n IH]; intros pool; simpl; auto 6 with frame.
Qed.

Lemma keeps_random_choice a size p : keeps_df (Np.random_choice a size p).
Proof.
  unfold Np.random_choice.
  repeat (apply keeps_if; [ apply keeps_raise | ]).
  destruct (Np.finite p) as [w |]; [ | apply keeps_raise ].
  repeat (apply keeps_if; [ apply keeps_raise | ]).
  apply keeps_bind; [ apply keeps_draw | intros; apply keeps_ret ].
Qed.

#[local] Hint Resolve keeps_random_normal keeps_draw keeps_random_choice
  : frame.

Lemma keeps_phenotype_choice d dn cn cv total :
  keeps_df (phenotype_choice d dn cn cv total).
Proof.
  unfold phenotype_choice.
  do 3 (apply keeps_bind; [ solve [ auto with frame ] | intros ]).
  auto with frame.
Qed.

#[local] Hint Resolve keeps_phenotype_choice : frame.

Lemma keeps_prereq_step dn total sym dev acc finding :
  keeps_df (prereq_step dn total sym dev acc finding).
Proof. unfold prereq_step. auto 6 with frame. Qed.

Lemma keeps_for_each {A S} (body : S -> A -> M S) xs :
  (forall s x, keeps_df (body s x)) -> forall s, keeps_df (for_each xs body s).
Proof.
  intros Hb. induction xs as [| x xs IH]; intros s; simpl; auto with frame.
Qed.

Lemma keeps_generate_single_patient dn total info :
  keeps_df (generate_single_patient dn total info).
Proof.
  unfold generate_single_patient.
  do 7 (apply keeps_bind; [ solve [ auto with frame ] | intros ]).
  cbv zeta.
  apply keeps_bind; [ | auto with frame ].
  apply keeps_if; [ | auto with frame ].
  apply keeps_bind; [ | auto with frame ].
  apply keeps_for_each. intros. apply keeps_prereq_step.
Qed.

(** ** [phenotype_choice] is the composition of its stages *)

Lemma phenotype_choice_stages d dn cn cv total g :
  phenotype_choice d dn cn cv total g =
  (grp <- lift (partition d dn cn cv) ;;
   size <- noised_size grp d dn total ;;
   sample grp size) g.
Proof.
  unfold phenotype_choice, partition, noised_size, size_basis,
    disorder_weight, sample, sampling_size, selection_weights, bind, lift.
  destruct (select_eq (of_disorder d dn) cn cv) as [grp | cls];
    [ | reflexivity ].
  destruct (truediv _ _) as [w | cls]; [ | reflexivity ].
  destruct (Np.random_normal _ _ g) as [[x | cls] g1]; [ | reflexivity ].
  unfold ret. rewrite !length_map.
  destruct grp as [| r grp]; reflexivity.
Qed.

Lemma phenotype_choice_sample d dn cn cv total g grp size g1 :
  partition d dn cn cv = Ok grp ->
  noised_size grp d dn total g = (Ok size, g1) ->
  phenotype_choice d dn cn cv total g = sample grp size g1.
Proof.
  intros Hp Hs. rewrite phenotype_choice_stages, Hp.
  unfold lift. unfold bind at 1. now rewrite (bind_ok _ _ _ _ _ Hs).
Qed.

Lemma phenotype_choice_inv d dn cn cv total g r g' :
  phenotype_choice d dn cn cv total g = (Ok r, g') ->
  exists grp size g1,
    partition d dn cn cv = Ok grp /\
    noised_size grp d dn total g = (Ok size, g1) /\
    sample grp size g1 = (Ok r, g').
Proof.
  rewrite phenotype_choice_stages. intros H.
  apply bind_inv in H. destruct H as (grp & g0 & Hl & H).
  unfold lift in Hl. injection Hl as Hp <-.
  apply bind_inv in H. destruct H as (size & g1 & Hs & H).
  now exists grp, size, g1.
Qed.

(** ** Sampling without replacement *)

Section Draws.

Lemma remove_at_app {A} (l1 l2 : list A) x :
  Np.remove_at (length l1) (l1 ++ x :: l2) = l1 ++ l2.
Proof. induction l1 as [| h t IH]; simpl; [ reflexivity | now rewrite IH ]. Qed.

Lemma remove_at_split {A} (i : nat) (l : list A) d :
  (i < length l)%nat ->
  exists l1 l2,
    l = l1 ++ nth i l d :: l2 /\ Np.remove_at i l = l1 ++ l2.
Proof.
  intros Hi. destruct (nth_split l d Hi) as (l1 & l2 & E & Hl).
  exists l1, l2. split; [ exact E | ].
  rewrite E at 1. rewrite <- Hl. apply remove_at_app.
Qed.

Lemma draw_spec n :
  forall pool g idx g',
    (n <= length pool)%nat -> NoDup pool ->
    Np.draw pool n g = (Ok idx, g') ->
    NoDup idx /\ incl idx pool /\ length idx = n.
Proof.
  induction n as [| n IH]; intros pool g idx g' Hn Hnd H; simpl in H.
  - injection H as <- _. repeat split; [ constructor | intros x [] ].
  - apply bind_inv in H. destruct H as (k & g1 & _ & H).
    apply bind_inv in H. destruct H as (rest & g2 & Hrest & H).
    injection H as <- _.
    assert (Hi : (k mod length pool < length pool)%nat)
      by (apply Nat.mod_upper_bound; lia).
    destruct (remove_at_split _ _ O Hi) as (l1 & l2 & E & Er).
    rewrite Er in Hrest. set (x := nth (k mod length pool) pool O) in *.
    assert (Hlen : length pool = S (length (l1 ++ l2))).
    { rewrite E at 1. rewrite !length_app. simpl. lia. }
    rewrite E in Hnd.
    destruct (IH (l1 ++ l2) g1 rest g2) as (Hnd' & Hin & Hl);
      [ lia | now apply NoDup_remove_1 in Hnd | exact Hrest | ].
    repeat split.
    + constructor; [ | exact Hnd' ].
      intros Hx. apply Hin in Hx. now apply NoDup_remove_2 in Hnd.
    + intros y [<- | Hy]; rewrite E.
      * apply in_or_app. right. now left.
      * apply Hin in Hy. apply in_app_or in Hy. apply in_or_app.
        destruct Hy; [ now left | right; now right ].
    + simpl. now rewrite Hl.
Qed.

Lemma finite_length p w : Np.finite p = Some w -> length w = length p.
Proof.
  revert w. induction p as [| x p IH]; intros w H; simpl in H.
  - now injection H as <-.
  - destruct x as [q |]; [ | discriminate ].
    destruct (Np.finite p) as [qs |]; [ | discriminate ].
    injection H as <-. simpl. now rewrite (IH qs).
Qed.

Lemma support_NoDup w : NoDup (Np.support w).
Proof. apply NoDup_filter, seq_NoDup. Qed.

Lemma support_bound w i : In i (Np.support w) -> (i < length w)%nat.
Proof.
  unfold Np.support. rewrite filter_In, in_seq. lia.
Qed.

(** What a completed call of [np.random.choice] returns: the entries of
    [a] at [size] pairwise distinct positions. *)
Lemma random_choice_inv a size p g r g' :
  Np.random_choice a size p g = (Ok r, g') ->
  exists idx,
    NoDup idx /\ (forall i, In i idx -> (i < length a)%nat) /\
    r = map (fun i => nth i a "") idx /\
    Z.of_nat (length idx) = size.
Proof.
  unfold Np.random_choice.
  destruct (_ && _)%bool; [ discriminate | ].
  destruct (length p =? length a)%nat eqn:El; [ | discriminate ]; simpl.
  destruct (Np.finite p) as [w |] eqn:Ef; [ | discriminate ].
  destruct (existsb _ w); [ discriminate | ].
  destruct (Qle_bool _ Np.atol); [ | discriminate ]; simpl.
  destruct (Z.of_nat (length a) <? size)%Z; [ discriminate | ].
  destruct (size <? 0)%Z eqn:E0; [ discriminate | ].
  destruct (Z.of_nat (length (Np.support w)) <? size)%Z eqn:Es;
    [ discriminate | ].
  intros H. apply bind_inv in H. destruct H as (idx & g1 & Hd & H).
  injection H as <- _.
  apply Z.ltb_ge in E0, Es. apply Nat.eqb_eq in El.
  assert (Hn : (Z.to_nat size <= length (Np.support w))%nat) by lia.
  destruct (draw_spec _ _ _ _ _ Hn (support_NoDup w) Hd)
    as (Hnd & Hin & Hl).
  exists idx. repeat split; [ exact Hnd | | lia ].
  intros i Hi. apply Hin, support_bound in Hi.
  rewrite (finite_length _ _ Ef) in Hi. lia.
Qed.

End Draws.

Lemma NoDup_map_on {A B} (f : A -> B) (l : list A) :
  (forall x y, In x l -> In y l -> f x = f y -> x = y) ->
  NoDup l -> NoDup (map f l).
Proof.
  induction l as [| a l IH]; intros Hinj Hnd; simpl; [ constructor | ].
  inversion_clear Hnd as [| ? ? Ha Hl]. constructor.
  - rewrite in_map_iff. intros (x & Hx & Hin).
    apply Ha. rewrite (Hinj a x); auto; [ now left | now right ].
  - apply IH; [ | exact Hl ]. intros x y Hx Hy. apply Hinj; now right.
Qed.

Lemma load_df_invariant csv r :
  In r (load_df csv) -> occurs_and_is_not_redundant r.
Proof.
  unfold load_df. rewrite !filter_In. intros ((_ & Hp) & Hg). split.
  - intros E. apply Qeq_bool_iff in E. now rewrite E in Hp.
  - intros E. rewrite E in Hg. discriminate.
Qed.

Lemma reachable_df g0 g : reachable g0 g -> df g = df g0.
Proof.
  induction 1 as [| g d dn cn cv total _ IH | g dn total info _ IH].
  - reflexivity.
  - now rewrite keeps_phenotype_choice.
  - now rewrite keeps_generate_single_patient.
Qed.

(* ------------------------------------------------------------------ *)
(** ** The catalog *)

(** C10. Every record of the catalog built at load time has a nonzero
    probability and a discovery group other than "R", and this still holds
    of the catalog, and of the prerequisite sub-frame taken from it, in
    every state reached by later sampling and assembly calls: the global
    frame is never written. *)
Theorem catalog_invariant csv rs g :
  reachable (mkGlobals (load_df csv) rs) g ->
  df g = load_df csv /\
  Forall occurs_and_is_not_redundant (df g) /\
  Forall occurs_and_is_not_redundant (prereq_df (df g)).
Proof.
  intros Hr. apply reachable_df in Hr. simpl in Hr. rewrite Hr.
  split; [ reflexivity | ].
  assert (H : Forall occurs_and_is_not_redundant (load_df csv))
    by (apply Forall_forall; intros r; apply load_df_invariant).
  split; [ exact H | ].
  apply Forall_forall. intros r Hin. apply incl_filter in Hin.
  rewrite Forall_forall in H. now apply H.
Qed.

Lemma catalog_invariant_witness :
  let g :=
    snd (generate_single_patient "D" 4 ["Alex"; "undiagnosed"] Example.g) in
  df g = load_df Example.csv /\
  Forall occurs_and_is_not_redundant (df g) /\
  Forall occurs_and_is_not_redundant (prereq_df (df g)).
Proof.
  apply (catalog_invariant Example.csv Example.rs).
  apply (reach_assemble _ Example.g). apply reach_start.
Defined.

(* ------------------------------------------------------------------ *)
(** ** The weighted sampler *)

(** C7. On a non-empty partition, a noised size above the number of records
    is replaced by [round(0.8 * |records|)] before sampling; any other
    noised size reaches the sampler unchanged. *)
Theorem sampling_size_policy d dn cn cv total g grp size g1 :
  partition d dn cn cv = Ok grp ->
  grp <> [] ->
  noised_size grp d dn total g = (Ok size, g1) ->
  let n := Z.of_nat (length grp) in
  let a := map patient_name grp in
  let p := selection_weights (map probability grp) in
  ((n < size)%Z ->
   phenotype_choice d dn cn cv total g =
   Np.random_choice a (round (inject_Z n * (8 # 10))%Q) p g1) /\
  ((size <= n)%Z ->
   phenotype_choice d dn cn cv total g = Np.random_choice a size p g1).
Proof.
  intros Hp Hne Hs n a p.
  rewrite (phenotype_choice_sample _ _ _ _ _ _ _ _ _ Hp Hs).
  destruct grp as [| r grp]; [ contradiction | ].
  unfold sample, sampling_size. fold n a p. split; intros H.
  - apply Z.ltb_lt in H. now rewrite H.
  - apply Z.ltb_ge in H. now rewrite H.
Qed.

Lemma sampling_size_policy_witness :
  phenotype_choice (df Example.g) "D" "discovery_group" (Str "S") 40
    Example.g =
  Np.random_choice ["s1"; "s2"] 2
    (selection_weights (map probability Example.symptoms))
    (snd (noised_size Example.symptoms (df Example.g) "D" 40 Example.g)).
Proof.
  refine (proj1 (sampling_size_policy (df Example.g) "D" "discovery_group"
                   (Str "S") 40 Example.g Example.symptoms 20 _ _ _ _) _).
  - reflexivity.
  - discriminate.
  - reflexivity.
  - reflexivity.
Defined.

(** C5, as the code has it. On a non-empty partition, a call that returns
    gives the names found at pairwise distinct rows of the partition: no
    more names than there are records, no record twice, and so no name
    twice when the names of the partition are pairwise distinct. *)
Theorem sample_bounded_without_duplicates d dn cn cv total g grp r g' :
  partition d dn cn cv = Ok grp ->
  grp <> [] ->
  phenotype_choice d dn cn cv total g = (Ok r, g') ->
  (length r <= length grp)%nat /\
  (exists idx,
      NoDup idx /\ (forall i, In i idx -> (i < length grp)%nat) /\
      r = map (fun i => nth i (map patient_name grp) "") idx) /\
  (NoDup (map patient_name grp) -> NoDup r).
Proof.
  intros Hp Hne H.
  apply phenotype_choice_inv in H.
  destruct H as (grp' & size & g1 & Hp' & _ & H).
  rewrite Hp in Hp'. injection Hp' as <-.
  destruct grp as [| r0 grp0]; [ contradiction | ].
  set (grp := r0 :: grp0) in *. unfold sample in H. fold grp in H.
  apply random_choice_inv in H.
  destruct H as (idx & Hnd & Hlt & -> & _).
  rewrite length_map in Hlt. rewrite length_map.
  repeat split.
  - rewrite <- (length_seq (length grp) 0).
    apply NoDup_incl_length; [ exact Hnd | ].
    intros i Hi. apply in_seq. apply Hlt in Hi. lia.
  - exists idx. auto.
  - intros Hnames. apply NoDup_map_on; [ | exact Hnd ].
    intros i j Hi Hj. apply (proj1 (NoDup_nth _ "") Hnames);
      rewrite length_map; auto.
Qed.

Lemma sample_bounded_without_duplicates_witness :
  (length ["s2"; "s1"] <= length Example.symptoms)%nat /\
  NoDup ["s2"; "s1"].
Proof.
  pose (g := mkGlobals (df Example.g)
               (mkRandomState (fun _ => 0%Q) (fun _ => 1%nat) 0 0)).
  destruct (sample_bounded_without_duplicates (df Example.g) "D"
              "discovery_group" (Str "S") 4 g Example.symptoms ["s2"; "s1"]
              (snd (phenotype_choice (df Example.g) "D" "discovery_group"
                      (Str "S") 4 g)))
    as (Hlen & _ & Hnd).
  - reflexivity.
  - discriminate.
  - reflexivity.
  - split; [ exact Hlen | ]. apply Hnd. simpl.
    repeat constructor; simpl; intuition discriminate.
Defined.

(** C5, as stated, fails: the partition of the category "X" holds the name
    "x" in two discovery groups, and a call that asks for two names returns
    it twice. *)
Lemma same_name_is_sampled_twice :
  partition (df Cohort.g_same_name) "D" "HPO_category" (Str "X")
  = Ok Cohort.same_name /\
  Cohort.same_name <> [] /\
  fst (phenotype_choice (df Cohort.g_same_name) "D" "HPO_category" (Str "X") 2
         Cohort.g_same_name) = Ok ["x"; "x"] /\
  ~ NoDup ["x"; "x"].
Proof.
  repeat split; try discriminate.
  intros H. inversion H as [| ? ? Hin _]. apply Hin. now left.
Qed.

(** ** Selection weights *)

Section Weights.

Lemma fsum_scaled (p : list Q) (s : Q) :
  (fsum (map (fun x => x / s) p) == fsum p / s)%Q.
Proof.
  induction p as [| x p IH]; simpl.
  - unfold Qdiv. ring.
  - rewrite IH. unfold Qdiv. ring.
Qed.

Lemma finite_selection_weights (p : list Q) :
  ~ (fsum p == 0)%Q ->
  Np.finite (selection_weights p) = Some (map (fun x => x / fsum p)%Q p).
Proof.
  intros Hs. unfold selection_weights, Np.divide.
  destruct (Qeq_bool (fsum p) 0) eqn:E;
    [ now apply Qeq_bool_iff in E | ].
  clear Hs E. generalize (fsum p) as s. intros s.
  induction p as [| x p IH]; simpl; [ reflexivity | ].
  simpl in IH. now rewrite IH.
Qed.

Lemma fsum_nonneg (p : list Q) :
  Forall (fun x => 0 < x)%Q p -> (0 <= fsum p)%Q.
Proof.
  induction 1 as [| x p Hx _ IH]; simpl; [ apply Qle_refl | ].
  apply Qlt_le_weak in Hx.
  now apply (Qplus_le_compat 0 x 0 (fsum p)).
Qed.

Lemma fsum_pos (p : list Q) :
  p <> [] -> Forall (fun x => 0 < x)%Q p -> (0 < fsum p)%Q.
Proof.
  intros Hne Hp. destruct Hp as [| x p Hx Hp]; [ contradiction | ].
  simpl. apply fsum_nonneg in Hp.
  apply (Qplus_lt_le_compat 0 x 0 (fsum p)); assumption.
Qed.

Lemma normalised_sum (p : list Q) :
  ~ (fsum p == 0)%Q -> (fsum (map (fun x => x / fsum p) p) == 1)%Q.
Proof.
  intros Hs. rewrite fsum_scaled. now field.
Qed.

Lemma within_atol (s : Q) :
  (s == 1)%Q -> Qle_bool (Qabs (s - 1)) Np.atol = true.
Proof. intros ->. reflexivity. Qed.

End Weights.


Lemma filter_twice {A} (f h : A -> bool) (l : list A) :
  filter f (filter h l) = filter (fun x => f x && h x)%bool l.
Proof.
  induction l as [| x l IH]; simpl; [ reflexivity | ].
  destruct (h x) eqn:Eh; simpl.
  - destruct (f x); simpl; now rewrite IH.
  - now rewrite IH, andb_false_r.
Qed.

(** C8. The prerequisite draw of [generate_single_patient] is
    [phenotype_choice] on the frame restricted to the records whose
    [prerequisite_needed] is "N"; its size before the noise is the target
    count times the weight of the pool divided by the probability sum of
    the records of the disorder with that flag "N", which is not the
    probability sum of all the records of the disorder. *)
Theorem prereq_basis_over_unflagged_records dn total sym dev acc finding g :
  let d := prereq_df (df g) in
  prereq_step dn total sym dev acc finding g =
    (prereq_finding <- phenotype_choice d dn "HPO_category" finding total ;;
     ret (fold_left (merge_prereq sym dev) prereq_finding acc)) g /\
  (forall g0,
      phenotype_choice d dn "HPO_category" finding total g0 =
      (pool <- lift (partition d dn "HPO_category" finding) ;;
       size <- noised_size pool d dn total ;;
       sample pool size) g0) /\
  (forall pool,
      size_basis pool d dn total =
      match
        truediv (fsum (map probability pool))
          (fsum (map probability
                   (filter (fun r => (disorder r =? dn) &&
                                     (prerequisite_needed r =? "N"))%bool
                      (df g))))
      with
      | Ok subset_weight => Ok (inject_Z total * subset_weight)%Q
      | Raise cls => Raise cls
      end) /\
  ~ (disorder_weight (prereq_df (df Example.g)) "D" ==
     disorder_weight (df Example.g) "D")%Q.
Proof.
  intros d. repeat split.
  - intros g0. apply phenotype_choice_stages.
  - intros pool. unfold size_basis, disorder_weight, of_disorder, d, prereq_df.
    now rewrite filter_twice.
  - intros E. vm_compute in E. discriminate.
Qed.

(** C6, as the code has it. When the partition is empty, the records of the
    disorder have a positive probability sum and weights of at most 1, and
    the target count is not negative and small enough for a double to hold
    it exactly, the call returns the empty sequence, after one draw of
    noise.  The size before the noise is then the zero [total * (0 / w)];
    the sign conditions make it the non-negative zero that
    [np.random.normal] accepts as a scale, and the two bounds keep
    [math.fsum] and the product of line 83 from raising [OverflowError]:
    distinctions the rationals do not make. *)
Theorem empty_partition_yields_empty d dn cn cv total g :
  partition d dn cn cv = Ok [] ->
  (0 < disorder_weight d dn)%Q ->
  bounded_weights (of_disorder d dn) ->
  (0 <= total)%Z ->
  exact_int total ->
  phenotype_choice d dn cn cv total g = (Ok [], snd (next_gauss g)).
Proof.
  intros Hp Hw _ _ _.
  rewrite phenotype_choice_stages, Hp.
  unfold lift, bind at 1.
  unfold noised_size, size_basis, truediv.
  destruct (Qeq_bool (disorder_weight d dn) 0) eqn:E.
  { apply Qeq_bool_iff in E. rewrite E in Hw. now apply Qlt_irrefl in Hw. }
  unfold Np.random_normal, bind, lift. cbv beta.
  assert (Hz : Qle_bool 0
                 (inject_Z total * (fsum (map probability []) /
                                    disorder_weight d dn) * (15 # 100)) = true).
  { apply Qle_bool_iff. simpl. unfold Qdiv.
    setoid_replace
      (inject_Z total * (0 * / disorder_weight d dn) * (15 # 100))%Q
      with 0%Q by ring.
    apply Qle_refl. }
  rewrite Hz. reflexivity.
Qed.

Lemma empty_partition_yields_empty_witness :
  phenotype_choice Example.symptoms "D" "discovery_group" (Str "F") 4
    Example.g = (Ok [], snd (next_gauss Example.g)).
Proof.
  apply empty_partition_yields_empty.
  - reflexivity.
  - reflexivity.
  - repeat (constructor; [ discriminate | ]). constructor.
  - discriminate.
  - unfold exact_int. simpl. lia.
Defined.

(** C6, as stated, fails: for a disorder without records the partition is
    empty and the call raises [ZeroDivisionError]. *)
Lemma empty_partition_of_unknown_disorder_raises :
  partition (df Example.g) "Q" "discovery_group" (Str "S") = Ok [] /\
  phenotype_choice (df Example.g) "Q" "discovery_group" (Str "S") 4 Example.g
  = (Raise ZeroDivisionError, Example.g) /\
  fst (phenotype_choice (df Example.g) "Q" "discovery_group" (Str "S") 4
         Example.g) <> Ok [].
Proof.
  repeat split. discriminate.
Qed.

(** ** Errors *)

(** C3, as the code has it. A query for a disorder that has no records in
    the frame raises [ZeroDivisionError] (the empty probability sums are
    divided), whatever the existing column, value and target count, and
    leaves the generator untouched; the error ends the assembly of a
    profile for that disorder. *)
Theorem unknown_disorder_raises_zero_division d dn :
  of_disorder d dn = [] ->
  (forall cn cv total g,
      column cn <> None ->
      phenotype_choice d dn cn cv total g = (Raise ZeroDivisionError, g)) /\
  (forall total info rs,
      generate_single_patient dn total info (mkGlobals d rs) =
      (Raise ZeroDivisionError, mkGlobals d rs)).
Proof.
  intros Hd.
  assert (H : forall cn cv total g,
             column cn <> None ->
             phenotype_choice d dn cn cv total g
             = (Raise ZeroDivisionError, g)).
  { intros cn cv total g Hc. unfold phenotype_choice, select_eq.
    rewrite Hd. destruct (column cn) as [get |]; [ | contradiction ].
    reflexivity. }
  split; [ exact H | ].
  intros total info rs. unfold generate_single_patient.
  unfold bind at 1. unfold global_df at 1. cbv iota beta.
  apply bind_raise. simpl df. apply H. discriminate.
Qed.

Lemma unknown_disorder_raises_zero_division_witness :
  phenotype_choice (df Example.g) "Q" "HPO_category" (Str "X") 4 Example.g =
    (Raise ZeroDivisionError, Example.g) /\
  generate_single_patient "Q" 4 ["Alex"; "undiagnosed"] Example.g =
    (Raise ZeroDivisionError, Example.g).
Proof.
  destruct (unknown_disorder_raises_zero_division (df Example.g) "Q")
    as (Hs & Ha).
  - reflexivity.
  - split.
    + apply Hs. discriminate.
    + apply (Ha 4%Z ["Alex"; "undiagnosed"] Example.rs).
Defined.

(** C3, as stated, fails: the error raised for a disorder without records
    is not an [UnknownDisorder]. *)
Lemma unknown_disorder_error_is_not_named_so :
  of_disorder (df Example.g) "Q" = [] /\
  fst (phenotype_choice (df Example.g) "Q" "discovery_group" (Str "F") 4
         Example.g) = Raise "ZeroDivisionError" /\
  fst (phenotype_choice (df Example.g) "Q" "discovery_group" (Str "F") 4
         Example.g) <> Raise "UnknownDisorder".
Proof.
  repeat split. discriminate.
Qed.

Lemma positive_selection_weights (p : list Q) :
  p <> [] -> Forall (fun x => 0 < x)%Q p ->
  existsb (fun x => negb (Qle_bool 0 x)) (map (fun x => x / fsum p)%Q p)
  = false.
Proof.
  intros Hne Hp. pose proof (fsum_pos p Hne Hp) as Hs.
  generalize dependent (fsum p). intros s Hs. clear Hne.
  induction Hp as [| x p Hx _ IH]; simpl; [ reflexivity | ].
  rewrite IH, orb_false_r. apply negb_false_iff, Qle_bool_iff.
  apply Qlt_le_weak, Qlt_shift_div_l; [ exact Hs | ].
  now rewrite Qmult_0_l.
Qed.

Lemma random_choice_none a p g :
  a <> [] -> length p = length a ->
  Forall (fun x => 0 < x)%Q p ->
  Np.random_choice a 0 (selection_weights p) g = (Ok [], g).
Proof.
  intros Ha Hl Hp. unfold Np.random_choice.
  assert (Hne : p <> []) by (destruct p, a; simpl in *; congruence).
  assert (Hs : ~ (fsum p == 0)%Q).
  { intros E. pose proof (fsum_pos p Hne Hp) as H. rewrite E in H.
    now apply Qlt_irrefl in H. }
  rewrite andb_false_r.
  unfold selection_weights at 1. rewrite length_map, Hl, Nat.eqb_refl.
  cbn [negb].
  rewrite (finite_selection_weights p Hs).
  rewrite (positive_selection_weights p Hne Hp).
  rewrite (within_atol _ (normalised_sum p Hs)).
  cbn [negb].
  destruct (Z.of_nat (length a) <? 0)%Z eqn:E1; [ apply Z.ltb_lt in E1; lia | ].
  destruct (Z.of_nat (length (Np.support _)) <? 0)%Z eqn:E2;
    [ apply Z.ltb_lt in E2; lia | ].
  reflexivity.
Qed.

Lemma random_choice_negative a size p g :
  a <> [] -> (size < 0)%Z ->
  Np.random_choice a size p g = (Raise ValueError, g).
Proof.
  intros Ha Hs. unfold Np.random_choice.
  destruct (_ && _)%bool; [ reflexivity | ].
  destruct (negb _); [ reflexivity | ].
  destruct (Np.finite p) as [w |]; [ | reflexivity ].
  destruct (existsb _ w); [ reflexivity | ].
  destruct (negb _); [ reflexivity | ].
  destruct (_ <? size)%Z; [ reflexivity | ].
  apply Z.ltb_lt in Hs. now rewrite Hs.
Qed.

(** C2, as the code has it. A rounded size of zero gives the empty result
    (on a non-empty partition the weights must be positive for numpy to
    accept them), and so does any size on an empty partition; a negative
    rounded size on a non-empty partition is not clamped: it reaches
    [np.random.choice], which raises [ValueError]. *)
Theorem nonpositive_size_outcome d dn cn cv total g grp size g1 :
  partition d dn cn cv = Ok grp ->
  noised_size grp d dn total g = (Ok size, g1) ->
  (size <= 0)%Z ->
  (grp = [] -> phenotype_choice d dn cn cv total g = (Ok [], g1)) /\
  (size = 0%Z -> positive_weights grp ->
   phenotype_choice d dn cn cv total g = (Ok [], g1)) /\
  ((size < 0)%Z -> grp <> [] ->
   phenotype_choice d dn cn cv total g = (Raise ValueError, g1)).
Proof.
  intros Hp Hs Hle.
  rewrite (phenotype_choice_sample _ _ _ _ _ _ _ _ _ Hp Hs).
  split; [ now intros -> | ]. split.
  - intros -> Hpos. destruct grp as [| r grp]; [ reflexivity | ].
    unfold sample, sampling_size.
    destruct (Z.of_nat (length (r :: grp)) <? 0)%Z eqn:E;
      [ apply Z.ltb_lt in E; lia | ].
    apply random_choice_none.
    + discriminate.
    + now rewrite !length_map.
    + unfold positive_weights in Hpos. rewrite Forall_forall in *.
      intros x Hx. apply in_map_iff in Hx. destruct Hx as (r' & <- & Hr).
      now apply Hpos.
  - intros Hneg Hne. destruct grp as [| r grp]; [ contradiction | ].
    unfold sample, sampling_size.
    destruct (Z.of_nat (length (r :: grp)) <? size)%Z eqn:E;
      [ apply Z.ltb_lt in E; lia | ].
    apply random_choice_negative; [ discriminate | exact Hneg ].
Qed.

Lemma nonpositive_size_outcome_witness :
  phenotype_choice (df Example.g) "D" "discovery_group" (Str "S") 0 Example.g
  = (Ok [], snd (next_gauss Example.g)).
Proof.
  refine (proj1 (proj2 (nonpositive_size_outcome (df Example.g) "D"
                          "discovery_group" (Str "S") 0 Example.g
                          Example.symptoms 0 _ _ _ _)) _ _).
  - reflexivity.
  - reflexivity.
  - discriminate.
  - reflexivity.
  - repeat constructor.
Defined.

(** C2, as stated, fails: with a target count of 40 and a deviate seven
    standard deviations below the mean, the rounded size of a two-record
    partition is [-1], and the call raises [ValueError] instead of returning
    the empty result. *)
Lemma negative_size_is_not_clamped :
  partition (df Example.g_low) "D" "discovery_group" (Str "S")
  = Ok Example.symptoms /\
  fst (noised_size Example.symptoms (df Example.g_low) "D" 40 Example.g_low)
  = Ok (-1)%Z /\
  fst (phenotype_choice (df Example.g_low) "D" "discovery_group" (Str "S") 40
         Example.g_low) = Raise "ValueError" /\
  fst (phenotype_choice (df Example.g_low) "D" "discovery_group" (Str "S") 40
         Example.g_low) <> Ok [].
Proof.
  repeat split. discriminate.
Qed.

(* ------------------------------------------------------------------ *)
(** ** The assembler *)

Lemma merge_prereq_skips sym dev acc x : merge_prereq sym dev acc x = acc.
Proof. reflexivity. Qed.

Lemma fold_merge_prereq sym dev xs :
  forall acc, fold_left (merge_prereq sym dev) xs acc = acc.
Proof.
  induction xs as [| x xs IH]; intros acc; simpl; [ reflexivity | ].
  now rewrite merge_prereq_skips.
Qed.

Lemma prereq_step_acc dn total sym dev acc finding g r g' :
  prereq_step dn total sym dev acc finding g = (Ok r, g') -> r = acc.
Proof.
  unfold prereq_step. intros H.
  apply bind_inv in H. destruct H as (d & g0 & _ & H).
  apply bind_inv in H. destruct H as (pf & g1 & _ & H).
  injection H as <- _. apply fold_merge_prereq.
Qed.

(** The loop over the findings returns the accumulator it was given: no
    sampled prerequisite is ever appended. *)
Lemma for_each_prereq_acc dn total sym dev findings :
  forall acc g r g',
    for_each findings (prereq_step dn total sym dev) acc g = (Ok r, g') ->
    r = acc.
Proof.
  induction findings as [| f fs IH]; intros acc g r g' H; simpl in H.
  - now injection H as <- _.
  - apply bind_inv in H. destruct H as (acc' & g1 & Hstep & H).
    apply prereq_step_acc in Hstep. subst acc'. now apply IH in H.
Qed.

Lemma sample_incl grp size g r g' :
  sample grp size g = (Ok r, g') -> incl r (map patient_name grp).
Proof.
  destruct grp as [| r0 grp0]; intros H.
  - injection H as <- _. intros x [].
  - set (grp := r0 :: grp0) in *. unfold sample in H. fold grp in H.
    apply random_choice_inv in H. destruct H as (idx & _ & Hlt & -> & _).
    intros x Hx. apply in_map_iff in Hx. destruct Hx as (i & <- & Hi).
    apply nth_In. auto.
Qed.

Lemma phenotype_choice_names d dn group total g r g' :
  phenotype_choice d dn "discovery_group" (Str group) total g = (Ok r, g') ->
  incl r (names_of d dn group).
Proof.
  intros H. apply phenotype_choice_inv in H.
  destruct H as (grp & size & g1 & Hp & _ & H).
  unfold partition, select_eq in Hp. simpl column in Hp.
  injection Hp as <-. apply sample_incl in H. exact H.
Qed.

Lemma phenotype_choice_df d dn cn cv total g x g' :
  phenotype_choice d dn cn cv total g = (x, g') -> df g' = df g.
Proof.
  intros H. pose proof (keeps_phenotype_choice d dn cn cv total g) as K.
  now rewrite H in K.
Qed.

(** C4. A returned profile is the identity fields of the caller, then
    developmental traits, then symptoms, then findings: three segments in
    that order, each holding only names of its own discovery group for the
    disorder. *)
Theorem profile_segments_in_order dn total info g r g' :
  generate_single_patient dn total info g = (Ok r, g') ->
  exists dev sym fin,
    r = info ++ dev ++ sym ++ fin /\
    incl dev (names_of (df g) dn "D") /\
    incl sym (names_of (df g) dn "S") /\
    incl fin (names_of (df g) dn "F").
Proof.
  unfold generate_single_patient. intros H.
  apply bind_inv in H. destruct H as (d0 & g0 & E0 & H).
  injection E0 as <- <-.
  apply bind_inv in H. destruct H as (fin & g1 & Hfin & H).
  apply bind_inv in H. destruct H as (d1 & g1' & E1 & H).
  injection E1 as <- <-.
  apply bind_inv in H. destruct H as (sym & g2 & Hsym & H).
  apply bind_inv in H. destruct H as (d2 & g2' & E2 & H).
  injection E2 as <- <-.
  apply bind_inv in H. destruct H as (dev & g3 & Hdev & H).
  apply bind_inv in H. destruct H as (d3 & g3' & E3 & H).
  injection E3 as <- <-.
  cbv zeta in H.
  apply bind_inv in H. destruct H as (sym' & g4 & Hmerge & H).
  injection H as <- _.
  pose proof (phenotype_choice_df _ _ _ _ _ _ _ _ Hfin) as D1.
  pose proof (phenotype_choice_df _ _ _ _ _ _ _ _ Hsym) as D2.
  rewrite D1 in *. rewrite D2 in *.
  assert (Es : sym' = sym).
  { destruct (negb _) in Hmerge.
    - apply bind_inv in Hmerge. destruct Hmerge as (acc & g5 & Hloop & Hm).
      apply for_each_prereq_acc in Hloop. subst acc.
      destruct sym as [| s sym]; simpl in Hm; injection Hm as <- _.
      + reflexivity.
      + now rewrite app_nil_r.
    - now injection Hmerge as <- _. }
  subst sym'. exists dev, sym, fin.
  repeat split; eauto using phenotype_choice_names.
Qed.

Lemma profile_segments_in_order_witness :
  exists dev sym fin,
    ["Alex"; "undiagnosed"; "d1"; "s1"; "f1"] =
      ["Alex"; "undiagnosed"] ++ dev ++ sym ++ fin /\
    incl dev (names_of (df Example.g) "D" "D") /\
    incl sym (names_of (df Example.g) "D" "S") /\
    incl fin (names_of (df Example.g) "D" "F").
Proof.
  apply (profile_segments_in_order "D" 4 ["Alex"; "undiagnosed"] Example.g
           ["Alex"; "undiagnosed"; "d1"; "s1"; "f1"]
           (snd (generate_single_patient "D" 4 ["Alex"; "undiagnosed"]
                   Example.g))).
  reflexivity.
Defined.

(** C1, at a run where it fails. The finding "f1", which needs a prerequisite
    of category "X", is drawn; the restricted pool for "X" holds the symptom
    "s2" and the prerequisite draw returns it; yet the profile returned has
    the single symptom "s1": the guard of the merge compares a bound method
    with [False], is never true, and no drawn prerequisite is merged. *)
Theorem prerequisite_symptom_is_not_merged :
  fst (phenotype_choice (df Example.g) "D" "discovery_group" (Str "F") 4
         Example.g) = Ok ["f1"] /\
  In (Example.row "f1" 1 "F" "Y" (Str "X") (Str "W")) (df Example.g) /\
  partition (prereq_df (df Example.g)) "D" "HPO_category" (Str "X") =
    Ok [Example.row "s2" 1 "S" "N" NaN (Str "X")] /\
  fst (phenotype_choice (prereq_df (df Example.g)) "D" "HPO_category"
         (Str "X") 4 Example.g_drawn) = Ok ["s2"] /\
  fst (generate_single_patient "D" 4 ["Alex"; "undiagnosed"] Example.g) =
    Ok ["Alex"; "undiagnosed"; "d1"; "s1"; "f1"].
Proof.
  repeat split. vm_compute. auto 6.
Qed.

(* ------------------------------------------------------------------ *)
(** ** Rounding *)

Section Rounding.

(** [round] of [n * (c / d)], in integer arithmetic. *)
Lemma round_ratio (n c : Z) (d : positive) :
  round (inject_Z n * (c # d))%Q =
  let f := (n * c / Zpos d)%Z in
  match (2 * ((n * c) mod Zpos d) ?= Zpos d)%Z with
  | Lt => f
  | Gt => (f + 1)%Z
  | Eq => if Z.even f then f else (f + 1)%Z
  end.
Proof.
  unfold round, Qfloor, Qcompare, Qminus, Qplus, Qopp, Qmult, inject_Z.
  cbn [Qnum Qden]. cbv zeta.
  change (1 * d)%positive with d.
  rewrite Pos.mul_1_r.
  replace ((n * c * 1 + - (n * c / Zpos d) * Zpos d) * 2)%Z
    with (2 * ((n * c) mod Zpos d))%Z
    by (rewrite Z.mod_eq by discriminate; ring).
  rewrite Z.mul_1_l. reflexivity.
Qed.


Lemma round_four_fifths (n : Z) :
  round (inject_Z n * (8 # 10))%Q = ((4 * n + 2) / 5)%Z.
Proof.
  rewrite round_ratio. cbv zeta.
  destruct (Z.compare_spec (2 * ((n * 8) mod 10)) 10) as [E | E | E];
    try destruct (Z.even (n * 8 / 10)); Z.div_mod_to_equations; lia.
Qed.

End Rounding.

(* ------------------------------------------------------------------ *)
(** ** More on the sampler *)

Lemma draw_returns n :
  forall pool g, exists idx g', Np.draw pool n g = (Ok idx, g').
Proof.
  induction n as [| n IH]; intros pool g; simpl.
  - now exists [], g.
  - unfold bind, next_pick. cbv iota beta zeta.
    match goal with
    | |- context [Np.draw ?p n ?s] => destruct (IH p s) as (rest & g1 & E)
    end.
    rewrite E. eexists. eexists. reflexivity.
Qed.

Lemma random_choice_raises a size p g cls g' :
  Np.random_choice a size p g = (Raise cls, g') -> cls = ValueError.
Proof.
  unfold Np.random_choice, raise.
  repeat match goal with
         | |- context [if ?b then _ else _] => destruct b
         | |- context [match Np.finite ?p with _ => _ end] =>
             destruct (Np.finite p)
         end; try congruence.
  intros H.
  match type of H with
  | context [Np.draw ?p ?n] => destruct (draw_returns n p g) as (idx & g1 & E)
  end.
  unfold bind in H. rewrite E in H. discriminate.
Qed.

Lemma random_normal_raises loc scale g cls g' :
  Np.random_normal loc scale g = (Raise cls, g') ->
  cls = ValueError /\ g' = g /\ Qle_bool 0 scale = false.
Proof.
  unfold Np.random_normal. destruct (Qle_bool 0 scale).
  - discriminate.
  - unfold raise. intros H. injection H as <- <-. auto.
Qed.

Lemma random_choice_raises_sample grp size g cls g' :
  sample grp size g = (Raise cls, g') -> cls = ValueError.
Proof.
  destruct grp as [| r grp]; [ discriminate | ].
  apply random_choice_raises.
Qed.



(** X1. When the noised size exceeds the number [n >= 1] of records, the
    size handed to the sampler is [(4n + 2) div 5]: at least one, at most
    [n], and fewer than [n] exactly when there are three records or more
    (one or two records are all returned). *)
Theorem clamped_size_bounds (n : nat) (size : Z) :
  (0 < n)%nat ->
  (Z.of_nat n < size)%Z ->
  let m := sampling_size n size in
  m = ((4 * Z.of_nat n + 2) / 5)%Z /\
  (1 <= m <= Z.of_nat n)%Z /\
  ((m < Z.of_nat n)%Z <-> (3 <= n)%nat).
Proof.
  intros Hn Hs m. unfold m, sampling_size.
  apply Z.ltb_lt in Hs. rewrite Hs, round_four_fifths.
  repeat split; try (Z.div_mod_to_equations; lia).
Qed.

Lemma clamped_size_bounds_witness :
  sampling_size 3 10 = 2%Z /\ (1 <= sampling_size 3 10 <= 3)%Z.
Proof.
  destruct (clamped_size_bounds 3 10) as (E & B & _).
  - lia.
  - lia.
  - split; [ rewrite E; reflexivity | exact B ].
Defined.

(** X2. On a non-empty partition a call that returns gives exactly as many
    names as the size handed to the sampler: the noised size when it does
    not exceed the number of records (it is then not negative), the
    clamped size otherwise. *)
Theorem sample_count d dn cn cv total g grp size g1 r g' :
  partition d dn cn cv = Ok grp ->
  grp <> [] ->
  noised_size grp d dn total g = (Ok size, g1) ->
  phenotype_choice d dn cn cv total g = (Ok r, g') ->
  Z.of_nat (length r) = sampling_size (length grp) size /\
  ((size <= Z.of_nat (length grp))%Z ->
   (0 <= size)%Z /\ Z.of_nat (length r) = size).
Proof.
  intros Hp Hne Hs H.
  rewrite (phenotype_choice_sample _ _ _ _ _ _ _ _ _ Hp Hs) in H.
  destruct grp as [| r0 grp0]; [ contradiction | ].
  set (grp := r0 :: grp0) in *. unfold sample in H. fold grp in H.
  apply random_choice_inv in H. destruct H as (idx & _ & _ & -> & Hl).
  rewrite length_map. split; [ exact Hl | ].
  intros Hle. unfold sampling_size in Hl.
  apply Z.ltb_ge in Hle. rewrite Hle in Hl. lia.
Qed.

Lemma sample_count_witness :
  Z.of_nat (length ["s1"; "s2"]) = sampling_size (length Example.symptoms) 2.
Proof.
  refine (proj1 (sample_count (df Cohort.g) "D" "discovery_group" (Str "S") 4
                   Cohort.g Example.symptoms 2
                   (snd (noised_size Example.symptoms (df Cohort.g) "D" 4
                           Cohort.g))
                   ["s1"; "s2"]
                   (snd (phenotype_choice (df Cohort.g) "D" "discovery_group"
                           (Str "S") 4 Cohort.g)) _ _ _ _)).
  - reflexivity.
  - discriminate.
  - reflexivity.
  - reflexivity.
Defined.

Lemma partition_is_filter d dn cn cv grp :
  partition d dn cn cv = Ok grp ->
  exists f, grp = filter f (of_disorder d dn).
Proof.
  unfold partition, select_eq. destruct (column cn) as [get |]; intros H.
  - injection H as <-. now eexists.
  - discriminate.
Qed.

Lemma positive_filter f d : positive_weights d -> positive_weights (filter f d).
Proof.
  unfold positive_weights. rewrite !Forall_forall. intros H r Hr.
  apply filter_In in Hr. now apply H.
Qed.

Lemma positive_probabilities d :
  positive_weights d -> Forall (fun x => 0 < x)%Q (map probability d).
Proof.
  unfold positive_weights. rewrite !Forall_forall. intros H x Hx.
  apply in_map_iff in Hx. destruct Hx as (r & <- & Hr). now apply H.
Qed.

Lemma positive_weight_sum d :
  d <> [] -> positive_weights d -> (0 < fsum (map probability d))%Q.
Proof.
  intros Hne Hp. apply fsum_pos; [ | now apply positive_probabilities ].
  destruct d; [ contradiction | discriminate ].
Qed.

Lemma Qeq_bool_pos x : (0 < x)%Q -> Qeq_bool x 0 = false.
Proof.
  intros H. destruct (Qeq_bool x 0) eqn:E; [ | reflexivity ].
  apply Qeq_bool_iff in E. rewrite E in H. now apply Qlt_irrefl in H.
Qed.

(** X4. A negative target count (an int that a double holds exactly) on a
    non-empty partition of a disorder whose weights are positive and at
    most 1 raises [ValueError] (numpy refuses the negative scale of the
    noise) before anything is drawn. *)
Theorem negative_target_raises d dn cn cv total g grp :
  partition d dn cn cv = Ok grp ->
  grp <> [] ->
  positive_weights (of_disorder d dn) ->
  bounded_weights (of_disorder d dn) ->
  (total < 0)%Z ->
  exact_int total ->
  phenotype_choice d dn cn cv total g = (Raise ValueError, g).
Proof.
  intros Hp Hne Hpos _ Ht _.
  destruct (partition_is_filter _ _ _ _ _ Hp) as (f & Hf).
  assert (Hg : (0 < fsum (map probability grp))%Q).
  { apply positive_weight_sum; [ exact Hne | ].
    rewrite Hf. now apply positive_filter. }
  assert (Hd : (0 < disorder_weight d dn)%Q).
  { apply positive_weight_sum; [ | exact Hpos ].
    intros E. rewrite E in Hf. now subst grp. }
  rewrite phenotype_choice_stages, Hp.
  unfold lift, bind at 1. cbv iota beta.
  unfold noised_size, size_basis, truediv.
  rewrite (Qeq_bool_pos _ Hd).
  unfold bind, lift, Np.random_normal. cbv iota beta.
  set (w := (fsum (map probability grp) / disorder_weight d dn)%Q).
  assert (Hw : (0 < w)%Q).
  { apply Qlt_shift_div_l; [ exact Hd | ]. now rewrite Qmult_0_l. }
  assert (Hs : Qle_bool 0 (inject_Z total * w * (15 # 100)) = false).
  { destruct (Qle_bool 0 _) eqn:E; [ | reflexivity ].
    apply Qle_bool_iff in E. exfalso.
    assert (Hz : (inject_Z total < 0)%Q) by (unfold Qlt; simpl; lia).
    assert (H1 : (inject_Z total * w < 0)%Q).
    { rewrite <- (Qmult_0_l w). now apply Qmult_lt_compat_r. }
    assert (H2 : (inject_Z total * w * (15 # 100) < 0)%Q).
    { rewrite <- (Qmult_0_l (15 # 100)). now apply Qmult_lt_compat_r. }
    apply (Qlt_irrefl 0). now apply Qle_lt_trans with (2 := H2). }
  now rewrite Hs.
Qed.

Lemma negative_target_raises_witness :
  phenotype_choice (df Cohort.g) "D" "discovery_group" (Str "S") (-4) Cohort.g
  = (Raise ValueError, Cohort.g).
Proof.
  apply (negative_target_raises _ _ _ _ _ _ Example.symptoms).
  - reflexivity.
  - discriminate.
  - repeat constructor.
  - repeat (constructor; [ discriminate | ]). constructor.
  - reflexivity.
  - unfold exact_int. simpl. lia.
Defined.



Lemma next_gauss_df g : df (snd (next_gauss g)) = df g.
Proof. reflexivity. Qed.



(* ------------------------------------------------------------------ *)
(** ** More on the assembler *)

Lemma bind_raise_inv {A B} (m : M A) (k : A -> M B) g cls g' :
  bind m k g = (Raise cls, g') ->
  m g = (Raise cls, g') \/
  exists a g1, m g = (Ok a, g1) /\ k a g1 = (Raise cls, g').
Proof.
  unfold bind. destruct (m g) as [[a | c] g1]; intros H.
  - right. now exists a, g1.
  - left. now injection H as <- <-.
Qed.

Lemma phenotype_choice_raises_class d dn cn cv total g cls g' :
  column cn <> None ->
  phenotype_choice d dn cn cv total g = (Raise cls, g') ->
  numeric_error cls.
Proof.
  intros Hc. rewrite phenotype_choice_stages. unfold partition, select_eq.
  destruct (column cn) as [get |]; [ | contradiction ].
  intros H. apply bind_raise_inv in H.
  destruct H as [H | (grp & g0 & _ & H)]; [ discriminate | ].
  apply bind_raise_inv in H. destruct H as [H | (size & g1 & _ & H)].
  - unfold noised_size in H. apply bind_raise_inv in H.
    destruct H as [H | (b & g1 & _ & H)].
    + unfold lift, size_basis, truediv in H.
      destruct (Qeq_bool _ 0); [ | discriminate ].
      injection H as <- _. now left.
    + apply bind_raise_inv in H. destruct H as [H | (x & g2 & _ & H)];
        [ | discriminate ].
      apply random_normal_raises in H. right. tauto.
  - right. now apply random_choice_raises_sample in H.
Qed.

Lemma for_each_raises {A S} (P : string -> Prop) (body : S -> A -> M S) xs :
  (forall s x g cls g', body s x g = (Raise cls, g') -> P cls) ->
  forall s g cls g', for_each xs body s g = (Raise cls, g') -> P cls.
Proof.
  intros Hb. induction xs as [| x xs IH]; intros s g cls g' H; simpl in H.
  - discriminate.
  - apply bind_raise_inv in H. destruct H as [H | (s' & g1 & _ & H)]; eauto.
Qed.

Lemma prereq_step_raises dn total sym dev acc finding g cls g' :
  prereq_step dn total sym dev acc finding g = (Raise cls, g') ->
  numeric_error cls.
Proof.
  unfold prereq_step. intros H.
  apply bind_raise_inv in H. destruct H as [H | (d & g0 & _ & H)];
    [ discriminate | ].
  apply bind_raise_inv in H. destruct H as [H | (pf & g1 & _ & H)];
    [ | discriminate ].
  apply phenotype_choice_raises_class in H; [ exact H | discriminate ].
Qed.

(** X6. Every profile returned is the identity fields followed by the
    results of the three category draws, made in the order findings,
    symptoms, developmental traits and laid out in the reverse order: the
    prerequisite draws add no name and remove none. *)
Theorem profile_is_the_three_draws dn total info g r g' :
  generate_single_patient dn total info g = (Ok r, g') ->
  exists fin g1 sym g2 dev g3,
    phenotype_choice (df g) dn "discovery_group" (Str "F") total g
    = (Ok fin, g1) /\
    phenotype_choice (df g) dn "discovery_group" (Str "S") total g1
    = (Ok sym, g2) /\
    phenotype_choice (df g) dn "discovery_group" (Str "D") total g2
    = (Ok dev, g3) /\
    r = info ++ dev ++ sym ++ fin.
Proof.
  unfold generate_single_patient. intros H.
  apply bind_inv in H. destruct H as (d0 & g0 & E0 & H).
  injection E0 as <- <-.
  apply bind_inv in H. destruct H as (fin & g1 & Hfin & H).
  apply bind_inv in H. destruct H as (d1 & g1' & E1 & H).
  injection E1 as <- <-.
  apply bind_inv in H. destruct H as (sym & g2 & Hsym & H).
  apply bind_inv in H. destruct H as (d2 & g2' & E2 & H).
  injection E2 as <- <-.
  apply bind_inv in H. destruct H as (dev & g3 & Hdev & H).
  apply bind_inv in H. destruct H as (d3 & g3' & E3 & H).
  injection E3 as <- <-. cbv zeta in H.
  apply bind_inv in H. destruct H as (sym' & g4 & Hmerge & H).
  injection H as <- _.
  rewrite (phenotype_choice_df _ _ _ _ _ _ _ _ Hfin) in Hsym.
  rewrite (phenotype_choice_df _ _ _ _ _ _ _ _ Hsym),
    (phenotype_choice_df _ _ _ _ _ _ _ _ Hfin) in Hdev.
  exists fin, g1, sym, g2, dev, g3. repeat split; try assumption.
  destruct (negb _) in Hmerge.
  - apply bind_inv in Hmerge. destruct Hmerge as (acc & g5 & Hloop & Hm).
    apply for_each_prereq_acc in Hloop. subst acc.
    destruct sym as [| s sym]; simpl in Hm; injection Hm as <- _.
    + reflexivity.
    + now rewrite app_nil_r.
  - now injection Hmerge as <- _.
Qed.

Lemma profile_is_the_three_draws_witness :
  exists fin g1 sym g2 dev g3,
    phenotype_choice (df Example.g) "D" "discovery_group" (Str "F") 4
      Example.g = (Ok fin, g1) /\
    phenotype_choice (df Example.g) "D" "discovery_group" (Str "S") 4 g1
    = (Ok sym, g2) /\
    phenotype_choice (df Example.g) "D" "discovery_group" (Str "D") 4 g2
    = (Ok dev, g3) /\
    ["Alex"; "undiagnosed"; "d1"; "s1"; "f1"] =
    ["Alex"; "undiagnosed"] ++ dev ++ sym ++ fin.
Proof.
  apply (profile_is_the_three_draws "D" 4 ["Alex"; "undiagnosed"] Example.g
           ["Alex"; "undiagnosed"; "d1"; "s1"; "f1"]
           (snd (generate_single_patient "D" 4 ["Alex"; "undiagnosed"]
                   Example.g))).
  reflexivity.
Defined.

(** X7. When the target count is an int that a double holds exactly and
    the weights of the catalog are positive and at most 1, the assembly of a
    profile fails only with [ZeroDivisionError] or [ValueError]: the columns
    it names exist, so no [KeyError], and nothing is caught or raised by the
    assembler itself. *)
Theorem assembly_errors dn total info g cls g' :
  exact_int total ->
  positive_weights (df g) ->
  bounded_weights (df g) ->
  generate_single_patient dn total info g = (Raise cls, g') ->
  cls = ZeroDivisionError \/ cls = ValueError.
Proof.
  assert (Hc : forall d group g0 c g1,
             phenotype_choice d dn "discovery_group" (Str group) total g0
             = (Raise c, g1) -> numeric_error c).
  { intros d group g0 c g1. apply phenotype_choice_raises_class.
    discriminate. }
  intros _ _ _. unfold generate_single_patient. intros H.
  repeat (apply bind_raise_inv in H;
          destruct H as [H | (? & ? & _ & H)];
          [ first [ discriminate | now apply Hc in H ] | ]);
    cbv zeta in H.
  apply bind_raise_inv in H. destruct H as [H | (? & ? & _ & H)];
    [ | discriminate ].
  destruct (negb _) in H; [ | discriminate ].
  apply bind_raise_inv in H. destruct H as [H | (acc & ? & _ & H)].
  - apply (for_each_raises numeric_error) in H; [ exact H | ].
    intros s f g0 c g1. apply prereq_step_raises.
  - destruct (negb _) in H; discriminate.
Qed.

Lemma assembly_errors_witness :
  ZeroDivisionError = ZeroDivisionError \/ ZeroDivisionError = ValueError.
Proof.
  apply (assembly_errors "Q" 4 [] Example.g ZeroDivisionError Example.g).
  - unfold exact_int. simpl. lia.
  - repeat constructor.
  - repeat (constructor; [ discriminate | ]). constructor.
  - reflexivity.
Defined.

Lemma phenotype_choice_no_records d dn cn cv total g :
  of_disorder d dn = [] ->
  column cn <> None ->
  phenotype_choice d dn cn cv total g = (Raise ZeroDivisionError, g).
Proof.
  intros Hd Hc. unfold phenotype_choice, select_eq. rewrite Hd.
  destruct (column cn) as [get |]; [ reflexivity | contradiction ].
Qed.

(** X8. A profile can fail on a draw whose result it discards: when a drawn
    finding needs a prerequisite and the disorder has no record with
    [prerequisite_needed] "N", the prerequisite draw divides by an empty
    probability sum and the assembly raises [ZeroDivisionError], although
    the three category draws all succeeded. *)
Theorem flagged_finding_without_pool_fails
    dn total info g fin g1 sym g2 dev g3 r :
  phenotype_choice (df g) dn "discovery_group" (Str "F") total g
  = (Ok fin, g1) ->
  phenotype_choice (df g) dn "discovery_group" (Str "S") total g1
  = (Ok sym, g2) ->
  phenotype_choice (df g) dn "discovery_group" (Str "D") total g2
  = (Ok dev, g3) ->
  In r (of_disorder (df g) dn) ->
  In (patient_name r) fin ->
  prerequisite_needed r = "Y" ->
  of_disorder (prereq_df (df g)) dn = [] ->
  generate_single_patient dn total info g = (Raise ZeroDivisionError, g3).
Proof.
  intros Hfin Hsym Hdev Hr Hname Hflag Hpool.
  pose proof (phenotype_choice_df _ _ _ _ _ _ _ _ Hfin) as D1.
  pose proof (phenotype_choice_df _ _ _ _ _ _ _ _ Hsym) as D2.
  pose proof (phenotype_choice_df _ _ _ _ _ _ _ _ Hdev) as D3.
  rewrite D1 in D2. rewrite D2 in D3.
  unfold generate_single_patient.
  unfold bind at 1. unfold global_df at 1. cbv iota beta.
  rewrite (bind_ok _ _ _ _ _ Hfin).
  unfold bind at 1. unfold global_df at 1. cbv iota beta. rewrite D1.
  rewrite (bind_ok _ _ _ _ _ Hsym).
  unfold bind at 1. unfold global_df at 1. cbv iota beta. rewrite D2.
  rewrite (bind_ok _ _ _ _ _ Hdev).
  unfold bind at 1. unfold global_df at 1. cbv iota beta zeta. rewrite D3.
  apply bind_raise.
  set (flagged := map prerequisite_type _).
  assert (Hin : In (prerequisite_type r) flagged).
  { unfold flagged. apply in_map. rewrite !filter_In.
    repeat split; [ exact Hr | | now rewrite Hflag ].
    apply existsb_exists. exists (patient_name r).
    split; [ exact Hname | apply String.eqb_refl ]. }
  destruct flagged as [| finding rest]; [ contradiction | ].
  cbn [length Nat.eqb negb for_each].
  apply bind_raise, bind_raise.
  unfold prereq_step. unfold bind at 1. unfold global_df at 1.
  cbv iota beta zeta. apply bind_raise.
  apply phenotype_choice_no_records; [ now rewrite D3 | discriminate ].
Qed.

Lemma flagged_finding_without_pool_fails_witness :
  generate_single_patient "E" 4 [] Cohort.g_flagged
  = (Raise ZeroDivisionError,
     snd (next_gauss (snd (next_gauss
            (snd (phenotype_choice Cohort.flagged_only "E" "discovery_group"
                    (Str "F") 4 Cohort.g_flagged)))))).
Proof.
  apply (flagged_finding_without_pool_fails "E" 4 [] Cohort.g_flagged
           ["f9"]
           (snd (phenotype_choice Cohort.flagged_only "E" "discovery_group"
                   (Str "F") 4 Cohort.g_flagged))
           []
           (snd (next_gauss
                   (snd (phenotype_choice Cohort.flagged_only "E"
                           "discovery_group" (Str "F") 4 Cohort.g_flagged))))
           [] _
           (mkRow "E" "f9" 1 "F" "Y" (Str "X") (Str "W"))).
  - reflexivity.
  - reflexivity.
  - reflexivity.
  - now left.
  - now left.
  - reflexivity.
  - reflexivity.
Defined.

(* ------------------------------------------------------------------ *)
(** ** Splitting a profile into rounds *)

Section Split.

Context {A : Type}.

Lemma firstn_plus (n m : nat) (l : list A) :
  firstn (n + m) l = firstn n l ++ firstn m (skipn n l).
Proof.
  revert l. induction n as [| n IH]; intros l; simpl; [ reflexivity | ].
  destruct l as [| x l]; simpl.
  - now rewrite firstn_nil.
  - now rewrite IH.
Qed.

Lemma split_sizes_concat (sizes : list nat) :
  forall l : list A, concat (split_sizes sizes l) = firstn (list_sum sizes) l.
Proof.
  induction sizes as [| n sizes IH]; intros l; simpl; [ reflexivity | ].
  now rewrite IH, firstn_plus.
Qed.

Lemma split_sizes_lengths (sizes : list nat) :
  forall l : list A,
    (list_sum sizes <= length l)%nat ->
    map (@length A) (split_sizes sizes l) = sizes.
Proof.
  induction sizes as [| n sizes IH]; intros l H; simpl in *; [ reflexivity | ].
  rewrite length_firstn, IH.
  - f_equal. lia.
  - rewrite length_skipn. lia.
Qed.

Lemma list_sum_repeat (x n : nat) : list_sum (repeat x n) = (n * x)%nat.
Proof. induction n as [| n IH]; simpl; [ reflexivity | now rewrite IH ]. Qed.

Lemma section_sizes_sum (total sections : nat) :
  (0 < sections)%nat -> list_sum (section_sizes total sections) = total.
Proof.
  intros Hs. unfold section_sizes.
  rewrite list_sum_app, !list_sum_repeat.
  pose proof (Nat.div_mod_eq total sections) as E.
  pose proof (Nat.mod_upper_bound total sections ltac:(lia)) as B.
  nia.
Qed.

End Split.

(** X9. [np.array_split] cuts an array into the requested number of
    consecutive parts that together are the array, the first
    [len mod sections] parts one element longer than the others; with three
    sections the unpacking into three rounds never fails. *)
Theorem array_split_parts {A : Type} (ary : list A) (sections : nat) :
  (0 < sections)%nat ->
  concat (array_split ary sections) = ary /\
  map (@length A) (array_split ary sections) =
    (repeat (S (length ary / sections)) (length ary mod sections) ++
     repeat (length ary / sections) (sections - length ary mod sections))%nat
  /\
  length (array_split ary sections) = sections.
Proof.
  intros Hs. unfold array_split.
  pose proof (section_sizes_sum (length ary) sections Hs) as Hsum.
  assert (Hl : map (@length A)
                 (split_sizes (section_sizes (length ary) sections) ary)
               = section_sizes (length ary) sections)
    by (apply split_sizes_lengths; lia).
  repeat split.
  - rewrite split_sizes_concat, Hsum. apply firstn_all.
  - exact Hl.
  - rewrite <- (length_map (@length A)), Hl. unfold section_sizes.
    rewrite length_app, !repeat_length.
    pose proof (Nat.mod_upper_bound (length ary) sections ltac:(lia)). lia.
Qed.

Lemma array_split_parts_witness :
  concat (array_split ["d1"; "s1"; "s2"; "f1"] 3) = ["d1"; "s1"; "s2"; "f1"] /\
  map (@length string) (array_split ["d1"; "s1"; "s2"; "f1"] 3)
  = [2; 1; 1]%nat /\
  length (array_split ["d1"; "s1"; "s2"; "f1"] 3) = 3%nat.
Proof.
  apply (array_split_parts ["d1"; "s1"; "s2"; "f1"] 3). lia.
Defined.

Lemma array_split_three {A : Type} (ary : list A) :
  exists r1 r2 r3,
    array_split ary 3 = [r1; r2; r3] /\ r1 ++ r2 ++ r3 = ary /\
    (length r3 <= length r2 <= length r1)%nat /\
    (length r1 <= S (length r3))%nat.
Proof.
  destruct (array_split_parts ary 3 ltac:(lia)) as (Hc & Hl & Hn).
  destruct (array_split ary 3) as [| r1 [| r2 [| r3 [| r4 rest]]]];
    try discriminate.
  exists r1, r2, r3. simpl in Hc. rewrite app_nil_r in Hc.
  split; [ reflexivity | ]. split; [ exact Hc | ].
  pose proof (Nat.mod_upper_bound (length ary) 3 ltac:(lia)) as B.
  destruct (length ary mod 3) as [| [| [| m]]]; simpl in Hl;
    try lia; injection Hl as -> -> ->; lia.
Qed.

(* ------------------------------------------------------------------ *)
(** ** The lab-study generator *)

Lemma website_choices_get (i : nat) :
  getitem (permutations [0; 1; 2]%Z) ((i + 1) mod 5) = Ok (website_choices_of i)
  /\ length (website_choices_of i) = 3%nat
  /\ website_choices_of i <> [2; 1; 0]%Z.
Proof.
  unfold website_choices_of.
  pose proof (Nat.mod_upper_bound (i + 1) 5 ltac:(lia)) as B.
  destruct ((i + 1) mod 5) as [| [| [| [| [| m]]]]]; try lia;
    repeat split; discriminate.
Qed.

(** X10. The order of the three websites given to participant [i] is the
    permutation number [(i + 1) mod 5] of (0, 1, 2): it repeats every five
    participants, and the sixth order, (2, 1, 0), is given to nobody. *)
Theorem website_order_never_reversed (i : nat) :
  getitem (permutations [0; 1; 2]%Z) ((i + 1) mod 5) = Ok (website_choices_of i)
  /\ In (website_choices_of i)
       [ [0; 1; 2]; [0; 2; 1]; [1; 0; 2]; [1; 2; 0]; [2; 0; 1] ]%Z
  /\ website_choices_of i <> [2; 1; 0]%Z
  /\ website_choices_of (i + 5) = website_choices_of i.
Proof.
  split; [ apply website_choices_get | ].
  split; [ | split; [ apply website_choices_get | ] ].
  - unfold website_choices_of.
    pose proof (Nat.mod_upper_bound (i + 1) 5 ltac:(lia)) as B.
    destruct ((i + 1) mod 5) as [| [| [| [| [| m]]]]]; try lia;
      simpl; tauto.
  - unfold website_choices_of.
    replace (i + 5 + 1)%nat with (i + 1 + 1 * 5)%nat by lia.
    now rewrite Nat.Div0.mod_add.
Qed.

Lemma concat_axis1_same (frame : Columns) (col : list cell) (h : nat) :
  Forall (fun c => length c = h) frame -> length col = h ->
  concat_axis1 frame col = frame ++ [col].
Proof.
  intros Hf Hc. unfold concat_axis1.
  assert (Hh : Nat.max (height frame) (length col) = h).
  { rewrite Hc. unfold height.
    induction Hf as [| c frame Hl _ IH]; simpl; lia. }
  rewrite Hh. unfold pad. rewrite Hc, Nat.sub_diag. simpl. rewrite app_nil_r.
  f_equal. rewrite <- (map_id frame) at 2. apply map_ext_in.
  intros c Hin. rewrite Forall_forall in Hf. rewrite (Hf c Hin), Nat.sub_diag.
  simpl. apply app_nil_r.
Qed.

Lemma timeseries_game_inv total i wc n games d g st g' :
  timeseries_game total i wc (n, games) d g = (Ok st, g') ->
  exists profile r1 r2 r3 choice,
    generate_single_patient d total [] g = (Ok profile, g') /\
    array_split profile 3 = [r1; r2; r3] /\
    nth_error wc n = Some choice /\
    st = (S n,
          concat_axis1 games
            [ int_cell i; int_cell n; Str d; Num (inject_Z choice);
              Str (join r1); Str (join r2); Str (join r3) ]).
Proof.
  unfold timeseries_game. cbn [fst snd]. cbv zeta. intros H.
  apply bind_inv in H. destruct H as (profile & g1 & Hp & H).
  destruct (array_split profile 3) as [| r1 [| r2 [| r3 [| r4 rest]]]] eqn:Es;
    try discriminate.
  apply bind_inv in H. destruct H as (choice & g2 & Hc & H).
  unfold lift, getitem in Hc.
  destruct (nth_error wc n) as [c |] eqn:En; [ | discriminate ].
  injection Hc as <- <-. injection H as <- <-.
  exists profile, r1, r2, r3, c. auto.
Qed.

Lemma games_loop total i wc dl :
  forall n games g st g',
    for_each dl (timeseries_game total i wc) (n, games) g = (Ok st, g') ->
    Forall seven games ->
    (dl <> [] -> (n + length dl <= length wc)%nat) /\
    exists rows,
      snd st = games ++ rows /\ Forall seven rows /\
      map (firstn 4) rows =
      map (fun nd =>
             [ int_cell i; int_cell (fst nd); Str (snd nd);
               Num (inject_Z (nth (fst nd) wc 0%Z)) ])
        (combine (seq n (length dl)) dl).
Proof.
  induction dl as [| d dl IH]; intros n games g st g' H Hg; simpl in H.
  - injection H as <- _. split; [ congruence | ].
    exists []. simpl. rewrite app_nil_r. auto.
  - apply bind_inv in H. destruct H as (st1 & g1 & Hstep & H).
    apply timeseries_game_inv in Hstep.
    destruct Hstep as (profile & r1 & r2 & r3 & c & _ & _ & Hn & ->).
    rewrite (concat_axis1_same games _ 7 Hg) in H by reflexivity.
    apply IH in H.
    + destruct H as (Hlen & rows & Hs & H7 & Hk).
      assert (Hlt : (n < length wc)%nat)
        by (apply nth_error_Some; congruence).
      split.
      { intros _. destruct dl as [| d' dl']; [ simpl; lia | ].
        specialize (Hlen ltac:(discriminate)). simpl in *. lia. }
      eexists (_ :: rows). split; [ | split ].
      * rewrite Hs, <- app_assoc. reflexivity.
      * constructor; [ reflexivity | exact H7 ].
      * cbn [map firstn combine seq length fst snd].
        rewrite (nth_error_nth _ _ 0%Z Hn). f_equal. exact Hk.
    + apply Forall_app. split; [ exact Hg | ]. now constructor.
Qed.

Lemma timeseries_participant_inv dl total games i g games' g' :
  timeseries_participant dl total games i g = (Ok games', g') ->
  exists st,
    for_each dl (timeseries_game total i (website_choices_of i)) (O, games) g
    = (Ok st, g') /\ games' = snd st.
Proof.
  unfold timeseries_participant. cbv zeta.
  rewrite (proj1 (website_choices_get i)).
  unfold lift, bind at 1. cbv iota beta. intros H.
  apply bind_inv in H. destruct H as (st & g1 & Hl & H).
  injection H as <- <-. now exists st.
Qed.

Lemma participants_loop dl total count :
  forall a games g games' g',
    for_each (seq a count) (timeseries_participant dl total) games g
    = (Ok games', g') ->
    Forall seven games ->
    ((0 < count)%nat -> (length dl <= 3)%nat) /\
    exists rows,
      games' = games ++ rows /\ Forall seven rows /\
      map (firstn 4) rows =
      flat_map
        (fun i =>
           map (fun nd => game_key i (fst nd) (snd nd))
             (combine (seq 0 (length dl)) dl))
        (seq a count).
Proof.
  induction count as [| count IH]; intros a games g games' g' H Hg;
    simpl in H.
  - injection H as <- _. split; [ lia | ].
    exists []. simpl. rewrite app_nil_r. auto.
  - apply bind_inv in H. destruct H as (games1 & g1 & Hp & H).
    apply timeseries_participant_inv in Hp. destruct Hp as (st & Hl & ->).
    apply games_loop in Hl; [ | exact Hg ].
    destruct Hl as (Hlen & rows1 & Hs & H7 & Hk).
    rewrite (proj1 (proj2 (website_choices_get a))) in Hlen.
    rewrite Hs in H. apply IH in H;
      [ | apply Forall_app; split; assumption ].
    destruct H as (_ & rows2 & -> & H7' & Hk').
    split.
    { intros _. destruct dl as [| d dl']; [ simpl; lia | ].
      specialize (Hlen ltac:(discriminate)). simpl in *. lia. }
    exists (rows1 ++ rows2). split; [ now rewrite app_assoc | ].
    split; [ apply Forall_app; split; assumption | ].
    cbn [seq flat_map]. rewrite map_app, Hk, Hk'. reflexivity.
Qed.

Lemma expected_keys_length dl count :
  length (expected_keys dl count) = (count * length dl)%nat.
Proof.
  unfold expected_keys. generalize 0%nat at 2 as a.
  induction count as [| count IH]; intros a; simpl; [ reflexivity | ].
  rewrite length_app, IH, length_map, length_combine, length_seq. lia.
Qed.

(** X11. A lab-study dataset that is returned has one row of seven cells
    per participant and disorder, participant by participant and, for each,
    in the order of the disorder list; the row of game [n] of participant
    [i] starts with [i], [n], the disorder and the website at position [n]
    of the participant's order.  There is then at least one row, and at most
    three disorders. *)
Theorem timeseries_rows disorder_list total participants g rows g' :
  generate_timeseries_personas disorder_list total participants g
  = (Ok rows, g') ->
  map (firstn 4) rows = expected_keys disorder_list (Z.to_nat participants) /\
  Forall (fun row => length row = 7%nat) rows /\
  length rows = (Z.to_nat participants * length disorder_list)%nat /\
  rows <> [] /\
  (length disorder_list <= 3)%nat.
Proof.
  unfold generate_timeseries_personas. cbv zeta. intros H.
  apply bind_inv in H. destruct H as (noised & g1 & _ & H).
  apply bind_inv in H. destruct H as (games & g2 & Hloop & H).
  apply participants_loop in Hloop; [ | constructor ].
  destruct Hloop as (Hthree & rows' & -> & H7 & Hk). simpl in H.
  unfold lift, set_columns in H.
  destruct (height rows' =? _)%nat eqn:Eh; [ | discriminate ].
  injection H as <- <-.
  assert (Hne : rows' <> []).
  { intros ->. discriminate. }
  assert (Hlen : length rows' =
                 (Z.to_nat participants * length disorder_list)%nat).
  { rewrite <- (length_map (firstn 4)), Hk. apply expected_keys_length. }
  repeat split; try assumption.
  apply Hthree. destruct (Z.to_nat participants); [ | lia ].
  destruct rows'; [ contradiction | discriminate ].
Qed.

Lemma timeseries_rows_witness :
  map (firstn 4) (fst Cohort.two_games) = expected_keys ["D"; "D"] (Z.to_nat 1)
  /\ length (fst Cohort.two_games) = 2%nat.
Proof.
  destruct (timeseries_rows ["D"; "D"] 4 1 Cohort.g (fst Cohort.two_games)
              (snd Cohort.two_games)) as (Hk & _ & Hl & _).
  - reflexivity.
  - split; [ exact Hk | exact Hl ].
Defined.

(** X12. The three rounds of a game are the three consecutive parts of the
    profile assembled for it, without identity fields: round 1 is the start
    of the profile, and no round is longer than an earlier one or shorter by
    more than one name. *)
Theorem game_rounds total i wc n games d g st g' :
  timeseries_game total i wc (n, games) d g = (Ok st, g') ->
  exists profile r1 r2 r3 key,
    generate_single_patient d total [] g = (Ok profile, g') /\
    r1 ++ r2 ++ r3 = profile /\
    (length r3 <= length r2 <= length r1)%nat /\
    (length r1 <= S (length r3))%nat /\
    length key = 4%nat /\
    st = (S n,
          concat_axis1 games
            (key ++ [ Str (join r1); Str (join r2); Str (join r3) ])).
Proof.
  intros H. apply timeseries_game_inv in H.
  destruct H as (profile & r1 & r2 & r3 & c & Hp & Hs & _ & ->).
  destruct (array_split_three profile) as (a & b & c' & E & Hc & Hl1 & Hl2).
  rewrite Hs in E. injection E as <- <- <-.
  exists profile, r1, r2, r3,
    [ int_cell i; int_cell n; Str d; Num (inject_Z c) ].
  repeat split; try assumption; lia.
Qed.

Lemma game_rounds_witness :
  exists profile r1 r2 r3 key,
    generate_single_patient "D" 4 [] Cohort.g
    = (Ok profile,
       snd (timeseries_game 4 0 [0; 2; 1]%Z (O, []) "D" Cohort.g)) /\
    r1 ++ r2 ++ r3 = profile /\
    (length r3 <= length r2 <= length r1)%nat /\
    (length r1 <= S (length r3))%nat /\
    length key = 4%nat /\
    (1%nat,
     [ [ Num 0; Num 0; Str "D"; Num 0; Str "d1, s1"; Str "s2"; Str "f1" ] ])
    = (1%nat,
       concat_axis1 []
         (key ++ [ Str (join r1); Str (join r2); Str (join r3) ])).
Proof.
  apply (game_rounds 4 0 [0; 2; 1]%Z 0 [] "D" Cohort.g).
  reflexivity.
Defined.

Lemma generate_timeseries_personas_inv dl total participants g rows g' :
  generate_timeseries_personas dl total participants g = (Ok rows, g') ->
  exists noised g1,
    for_each (seq 0 (Z.to_nat participants))
      (timeseries_participant dl (round noised)) [] g1 = (Ok rows, g') /\
    rows <> [].
Proof.
  unfold generate_timeseries_personas. cbv zeta. intros H.
  apply bind_inv in H. destruct H as (noised & g1 & _ & H).
  apply bind_inv in H. destruct H as (games & g2 & Hloop & H).
  unfold lift, set_columns in H.
  destruct (height games =? _)%nat eqn:Eh; [ | discriminate ].
  injection H as <- <-. exists noised, g1. split; [ exact Hloop | ].
  intros ->. discriminate.
Qed.

(** X13. With more than three disorders and at least one participant the
    lab-study generator never returns: the fourth game of the first
    participant asks for a fourth website of an order of three (an
    [IndexError]), unless an earlier error stopped the run. *)
Theorem more_than_three_disorders_raise dl total participants g :
  (3 < length dl)%nat ->
  (0 < participants)%Z ->
  exists cls g',
    generate_timeseries_personas dl total participants g = (Raise cls, g').
Proof.
  intros Hdl Hp.
  destruct (generate_timeseries_personas dl total participants g)
    as [[rows | cls] g'] eqn:E; [ exfalso | now exists cls, g' ].
  apply generate_timeseries_personas_inv in E.
  destruct E as (noised & g1 & Hloop & _).
  apply participants_loop in Hloop; [ | constructor ].
  destruct Hloop as (Hthree & _).
  assert (0 < Z.to_nat participants)%nat by lia.
  specialize (Hthree H). lia.
Qed.

Lemma more_than_three_disorders_raise_witness :
  exists cls g',
    generate_timeseries_personas ["D"; "D"; "D"; "D"] 4 1 Cohort.g
    = (Raise cls, g').
Proof.
  apply more_than_three_disorders_raise.
  - simpl. lia.
  - lia.
Defined.

Lemma participants_idle total count :
  forall a games g,
    for_each (seq a count) (timeseries_participant [] total) games g
    = (Ok games, g).
Proof.
  induction count as [| count IH]; intros a games g; simpl;
    [ reflexivity | ].
  assert (E : timeseries_participant [] total games a g = (Ok games, g)).
  { unfold timeseries_participant. cbv zeta.
    rewrite (proj1 (website_choices_get a)). reflexivity. }
  rewrite (bind_ok _ _ _ _ _ E). apply IH.
Qed.

(** X14. Without a participant, or without a disorder, the lab-study
    generator raises [ValueError], for every target count that a double
    holds exactly: no game is built, and the seven column labels cannot be
    given to the empty frame (or numpy has refused a negative target count
    before). *)
Theorem empty_study_raises dl total participants g :
  exact_int total ->
  (participants <= 0)%Z \/ dl = [] ->
  fst (generate_timeseries_personas dl total participants g)
  = Raise ValueError.
Proof.
  intros _ Hempty. unfold generate_timeseries_personas. cbv zeta.
  destruct (Np.random_normal (inject_Z total) (inject_Z total * (1 # 10)) g)
    as [[noised | cls] g1] eqn:En.
  - rewrite (bind_ok _ _ _ _ _ En).
    assert (Hloop : for_each (seq 0 (Z.to_nat participants))
                      (timeseries_participant dl (round noised)) [] g1
                    = (Ok [], g1)).
    { destruct Hempty as [Hp | ->].
      - replace (Z.to_nat participants) with O by lia. reflexivity.
      - apply participants_idle. }
    rewrite (bind_ok _ _ _ _ _ Hloop). reflexivity.
  - rewrite (bind_raise _ _ _ _ _ En). simpl.
    apply random_normal_raises in En. now destruct En as (-> & _).
Qed.

Lemma empty_study_raises_witness :
  fst (generate_timeseries_personas ["D"] 4 0 Cohort.g) = Raise ValueError.
Proof.
  apply empty_study_raises.
  - unfold exact_int. simpl. lia.
  - left. lia.
Defined.

(* ------------------------------------------------------------------ *)
(** ** The static user base *)

Ltac round_cases f :=
  rewrite round_ratio; cbv zeta;
  match goal with
  | |- context [(?a ?= ?b)%Z] =>
      destruct (Z.compare_spec a b) as [E | E | E]
  end;
  try (destruct (Z.even f) eqn:Ev;
       [ apply Z.even_spec in Ev; destruct Ev as [q Hq] | ]);
  Z.div_mod_to_equations; lia.

Lemma round_three_quarters (n : Z) :
  (2 <= n)%Z ->
  let m := round (inject_Z n * (75 # 100))%Q in
  (2 <= m <= n)%Z /\ (3 * n - 2 <= 4 * m <= 3 * n + 2)%Z.
Proof.
  intros Hn m. unfold m. round_cases (n * 75 / 100)%Z.
Qed.

Lemma round_seventeen_twentieths (n : Z) :
  (2 <= n)%Z ->
  let m := round (inject_Z n * (85 # 100))%Q in
  (2 <= m <= n)%Z /\ (17 * n - 10 <= 20 * m <= 17 * n + 10)%Z.
Proof.
  intros Hn m. unfold m. round_cases (n * 85 / 100)%Z.
Qed.

(** X15. The cut of a user at an earlier stage of diagnosis keeps a prefix
    of the profile that always holds the two identity fields: the whole
    profile for [k <= 4], [round(0.85 * len)] entries for [k] from 5 to 7 and
    [round(0.75 * len)] entries for [k > 7], each within half an entry of
    the stated share. *)
Theorem earlier_stage_keeps_identity (k : Z) (user : list string) :
  (2 <= length user)%nat ->
  let kept := earlier_stage k user in
  let n := Z.of_nat (length user) in
  let m := Z.of_nat (length kept) in
  kept = firstn (length kept) user /\
  firstn 2 kept = firstn 2 user /\
  (2 <= m <= n)%Z /\
  ((k <= 4)%Z -> kept = user) /\
  ((4 < k <= 7)%Z -> (17 * n - 10 <= 20 * m <= 17 * n + 10)%Z) /\
  ((7 < k)%Z -> (3 * n - 2 <= 4 * m <= 3 * n + 2)%Z).
Proof.
  intros Hlen kept n m. unfold m, kept, earlier_stage. fold n.
  assert (Hn : (2 <= n)%Z) by (unfold n; lia).
  pose proof (round_three_quarters n Hn) as (B75 & S75).
  pose proof (round_seventeen_twentieths n Hn) as (B85 & S85).
  assert (Hcut : forall c : Z,
             (2 <= c <= n)%Z ->
             let cut := firstn (Z.to_nat c) user in
             cut = firstn (length cut) user /\
             firstn 2 cut = firstn 2 user /\
             Z.of_nat (length cut) = c).
  { intros c Hc cut. unfold cut.
    rewrite length_firstn, firstn_firstn.
    replace (Nat.min (Z.to_nat c) (length user)) with (Z.to_nat c)
      by (unfold n in Hc; lia).
    replace (Nat.min 2 (Z.to_nat c)) with 2%nat by lia.
    repeat split. lia. }
  destruct (7 <? k)%Z eqn:E7; [ | destruct (4 <? k)%Z eqn:E4 ].
  - apply Z.ltb_lt in E7.
    destruct (Hcut _ B75) as (H1 & H2 & H3). rewrite H3.
    repeat split; try assumption; try lia.
  - apply Z.ltb_ge in E7. apply Z.ltb_lt in E4.
    destruct (Hcut _ B85) as (H1 & H2 & H3). rewrite H3.
    repeat split; try assumption; try lia.
  - apply Z.ltb_ge in E7, E4. fold n.
    repeat split; try lia. now rewrite firstn_all.
Qed.

Lemma earlier_stage_keeps_identity_witness :
  earlier_stage 9 ["Bob"; "undiagnosed"; "d1"; "s1"; "s2"; "f1"]
  = firstn 4 ["Bob"; "undiagnosed"; "d1"; "s1"; "s2"; "f1"] /\
  firstn 2 (earlier_stage 9 ["Bob"; "undiagnosed"; "d1"; "s1"; "s2"; "f1"])
  = ["Bob"; "undiagnosed"].
Proof.
  destruct (earlier_stage_keeps_identity 9
              ["Bob"; "undiagnosed"; "d1"; "s1"; "s2"; "f1"])
    as (H1 & H2 & _).
  - simpl. lia.
  - split; [ exact H1 | exact H2 ].
Defined.

Section RunningW.

Context {A B : Type}.

Lemma bindW_ok (m : W A) (k : A -> W B) w a w' :
  m w = (Ok a, w') -> bindW m k w = k a w'.
Proof. intros E. unfold bindW. now rewrite E. Qed.

Lemma bindW_inv (m : W A) (k : A -> W B) w b w' :
  bindW m k w = (Ok b, w') ->
  exists a w1, m w = (Ok a, w1) /\ k a w1 = (Ok b, w').
Proof.
  unfold bindW. destruct (m w) as [[a | cls] w1]; intros E.
  - now exists a, w1.
  - discriminate.
Qed.

End RunningW.

Lemma profile_starts_with_identity dn total info g r g' :
  generate_single_patient dn total info g = (Ok r, g') ->
  exists rest, r = info ++ rest.
Proof.
  unfold generate_single_patient. intros H.
  do 7 (apply bind_inv in H; destruct H as (? & ? & _ & H)).
  cbv zeta in H.
  apply bind_inv in H. destruct H as (sym' & g4 & _ & H).
  injection H as <- _. eexists. reflexivity.
Qed.

Lemma length_le_height (frame : Columns) (c : list cell) :
  In c frame -> (length c <= height frame)%nat.
Proof.
  unfold height. induction frame as [| c0 frame IH]; intros [].
  - subst. simpl. lia.
  - simpl. specialize (IH H). lia.
Qed.

Lemma concat_axis1_columns (frame : Columns) (col : list cell)
    (P : list cell -> Prop) :
  (forall c n, P c -> P (pad n c)) ->
  Forall P frame -> P col ->
  Forall P (concat_axis1 frame col) /\
  length (concat_axis1 frame col) = S (length frame) /\
  exists h, Forall (fun c => length c = h) (concat_axis1 frame col).
Proof.
  intros Hpad Hf Hc. unfold concat_axis1.
  set (h := Nat.max (height frame) (length col)).
  repeat split.
  - apply Forall_app. split.
    + rewrite Forall_map. eapply Forall_impl; [ | exact Hf ]. auto.
    + constructor; [ auto | constructor ].
  - rewrite length_app, length_map. simpl. lia.
  - exists h. apply Forall_app. split.
    + rewrite Forall_map. apply Forall_forall. intros c Hin.
      apply length_le_height in Hin. unfold pad.
      rewrite length_app, repeat_length. lia.
    + constructor; [ | constructor ]. unfold pad.
      rewrite length_app, repeat_length. lia.
Qed.

Lemma identified_pad dl c n : identified dl c -> identified dl (pad n c).
Proof.
  intros (name & status & rest & -> & Hs). unfold pad.
  exists name, status,
    (rest ++ repeat NaN (n - length (Str name :: Str status :: rest))).
  split; [ reflexivity | exact Hs ].
Qed.

Lemma earlier_stage_cut (k : Z) (user : list string) :
  (2 <= length user)%nat ->
  exists c, (2 <= c)%nat /\ earlier_stage k user = firstn c user.
Proof.
  intros Hlen. unfold earlier_stage.
  assert (Hn : (2 <= Z.of_nat (length user))%Z) by lia.
  pose proof (round_three_quarters _ Hn) as (B75 & _).
  pose proof (round_seventeen_twentieths _ Hn) as (B85 & _).
  destruct (7 <? k)%Z; [ | destruct (4 <? k)%Z ].
  - eexists. split; [ | reflexivity ]. lia.
  - eexists. split; [ | reflexivity ]. lia.
  - exists (length user). split; [ lia | now rewrite firstn_all ].
Qed.

Lemma generate_user_inv total users d w users' w' :
  generate_user total users d w = (Ok users', w') ->
  exists col,
    users' = concat_axis1 users col /\ identified [d] col.
Proof.
  unfold generate_user. intros H.
  apply bindW_inv in H. destruct H as (k & w1 & _ & H).
  apply bindW_inv in H. destruct H as (name & w2 & _ & H).
  apply bindW_inv in H. destruct H as (user & w3 & Hu & H).
  injection H as <- _.
  unfold in_module in Hu.
  destruct (generate_single_patient _ _ _ _) as [r g'] eqn:Ep.
  injection Hu as -> _.
  set (status := if (2 <? k)%Z then "undiagnosed" else d).
  assert (Ei : (if (2 <? k)%Z then [name; "undiagnosed"] else [name; d])
               = [name; status])
    by (unfold status; now destruct (2 <? k)%Z).
  rewrite Ei in Ep. apply profile_starts_with_identity in Ep.
  destruct Ep as (rest & ->).
  eexists. split; [ reflexivity | ].
  destruct (earlier_stage_cut k ([name; status] ++ rest)) as (c & Hc & ->);
    [ simpl; lia | ].
  destruct c as [| [| c]]; try lia. simpl.
  exists name, status, (map Str (firstn c rest)).
  split; [ reflexivity | ].
  unfold status. destruct (2 <? k)%Z; [ now left | right; now left ].
Qed.

Lemma identified_weaken d dl c : In d dl -> identified [d] c -> identified dl c.
Proof.
  intros Hd (name & status & rest & -> & [Hs | [Hs | []]]);
    exists name, status, rest; split; auto.
  right. now subst.
Qed.

Lemma users_of_disorders total all :
  forall dl users w users' w',
    incl dl all ->
    for_eachW dl (generate_user total) users w = (Ok users', w') ->
    users_frame all users ->
    users_frame all users' /\
    length users' = (length users + length dl)%nat.
Proof.
  induction dl as [| d dl IH]; intros users w users' w' Hincl H Hf;
    simpl in H.
  - injection H as <- _. split; [ exact Hf | simpl; lia ].
  - apply bindW_inv in H. destruct H as (users1 & w1 & Hstep & H).
    apply generate_user_inv in Hstep. destruct Hstep as (col & -> & Hcol).
    destruct Hf as (Hid & _).
    destruct (concat_axis1_columns users col (identified all))
      as (Hid' & Hlen & Hh).
    + intros c n. apply identified_pad.
    + exact Hid.
    + apply (identified_weaken d); [ apply Hincl; now left | exact Hcol ].
    + apply IH in H.
      * destruct H as (Hf' & Hl). split; [ exact Hf' | ].
        rewrite Hl, Hlen. simpl. lia.
      * intros x Hx. apply Hincl. now right.
      * split; assumption.
Qed.

Lemma users_of_rounds total dl count :
  forall (xs : list nat) users w users' w',
    length xs = count ->
    for_eachW xs
      (fun users _ => for_eachW dl (generate_user total) users) users w
    = (Ok users', w') ->
    users_frame dl users ->
    users_frame dl users' /\
    length users' = (length users + count * length dl)%nat.
Proof.
  induction count as [| count IH]; intros xs users w users' w' Hxs H Hf;
    destruct xs as [| x xs]; try discriminate; simpl in H.
  - injection H as <- _. split; [ exact Hf | lia ].
  - apply bindW_inv in H. destruct H as (users1 & w1 & Hround & H).
    apply (users_of_disorders total dl) in Hround;
      [ | apply incl_refl | exact Hf ].
    destruct Hround as (Hf1 & Hl1).
    apply IH in H; [ | simpl in Hxs; lia | exact Hf1 ].
    destruct H as (Hf' & Hl). split; [ exact Hf' | ]. rewrite Hl, Hl1. lia.
Qed.

Lemma dropna_all_identified dl frame :
  Forall (identified dl) frame -> dropna_all frame = frame.
Proof.
  induction 1 as [| c frame (name & status & rest & -> & _) _ IH]; simpl.
  - reflexivity.
  - now rewrite IH.
Qed.

(** X16. A user base that is returned has one row per round and disorder;
    every row starts with a name and a status that is "undiagnosed" or one
    of the disorders of the list; all rows have the same number of cells
    (the shorter profiles are filled with NaN), and [dropna] removes no
    row. *)
Theorem users_rows disorder_list total users_per_disorder w rows w' :
  generate_users disorder_list total users_per_disorder w = (Ok rows, w') ->
  length rows
  = (Z.to_nat users_per_disorder * length disorder_list)%nat /\
  Forall (identified disorder_list) rows /\
  (exists h, Forall (fun row => length row = h) rows) /\
  dropna_all rows = rows.
Proof.
  unfold generate_users. cbv zeta. intros H.
  apply bindW_inv in H. destruct H as (users & w1 & Hloop & H).
  injection H as <- _.
  apply (users_of_rounds total disorder_list (Z.to_nat users_per_disorder))
    in Hloop.
  - destruct Hloop as ((Hid & Hh) & Hl).
    rewrite !(dropna_all_identified _ _ Hid).
    repeat split; assumption.
  - apply length_seq.
  - split; [ constructor | exists O; constructor ].
Qed.

Lemma users_rows_witness :
  length (fst Cohort.three_users) = (Z.to_nat 3 * length ["D"])%nat /\
  Forall (identified ["D"]) (fst Cohort.three_users).
Proof.
  destruct (users_rows ["D"] 4 3 Cohort.w (fst Cohort.three_users)
              (snd Cohort.three_users)) as (Hl & Hid & _).
  - vm_compute. reflexivity.
  - split; [ exact Hl | exact Hid ].
Defined.

Lemma users_idle total :
  forall (xs : list nat) users w,
    for_eachW xs
      (fun users _ => for_eachW [] (generate_user total) users) users w
    = (Ok users, w).
Proof.
  induction xs as [| x xs IH]; intros users w; simpl; [ reflexivity | ].
  unfold bindW, retW at 1. apply IH.
Qed.

(** X17. Without a round, or without a disorder, the user-base generator
    returns the empty frame and draws nothing; the lab-study generator
    raises in the same situation. *)
Theorem empty_user_base disorder_list total users_per_disorder w :
  (users_per_disorder <= 0)%Z \/ disorder_list = [] ->
  generate_users disorder_list total users_per_disorder w = (Ok [], w).
Proof.
  intros Hempty. unfold generate_users. cbv zeta.
  assert (Hloop :
            for_eachW (seq 0 (Z.to_nat users_per_disorder))
              (fun users _ =>
                 for_eachW disorder_list (generate_user total) users) [] w
            = (Ok [], w)).
  { destruct Hempty as [Hp | ->].
    - replace (Z.to_nat users_per_disorder) with O by lia. reflexivity.
    - apply users_idle. }
  now rewrite (bindW_ok _ _ _ _ _ Hloop).
Qed.

Lemma empty_user_base_witness :
  generate_users [] 10 25 Cohort.w = (Ok [], Cohort.w).
Proof.
  apply empty_user_base. now right.
Defined.
